(** * MovieMeter: the top-rated aggregation and the movie service

    A shallow embedding of [services/MovieService.js] and of
    [repositories/RatingRepository.js] (the aggregation pipeline run by
    [getTopRatedAggregates]), together with the properties their
    specification states about them.

    Conventions of the embedding.
    - A JavaScript string is a [string]; each [ascii] stands for the code
      unit of the same number (U+0000 to U+00FF).
    - A JavaScript number is a binary64 value.  Where the code clamps what
      [parseInt] gives ([getTopRated]) the number is a [Z], [NaN] being the
      [None] of an [option Z]: rounding is monotone and the bounds are
      representable, so the clamped result is that of the exact integer.
      Where it does not ([getAllMovies]), the number is a [Js.Number]: an
      integer that binary64 represents, an infinity or [NaN], and the
      arithmetic rounds.  Both zeros are 0.  A count of documents is an
      integer below 2^53.
    - Rating scores and their means are exact rationals [Q]: the engine
      computes them in binary floating point, which this development
      idealises.  Equality of such values is [Qeq], written [==].
    - A promise is its outcome: [Resolved v] or [Rejected e].
    - The [movies] collection is a finite map from [_id] to document, so an
      [_id] is unique by construction; the [ratings] collection is the list
      of its documents in natural order. *)

From Stdlib Require Import ZArith QArith Qround Ascii String SpecFloat.
From stdpp Require Import base option list sorting gmap strings.

Local Open Scope Z_scope.

(** ** Outcomes of asynchronous calls *)

Inductive Error :=
| SyntaxError (pattern : string)   (* [new RegExp] on an ill-formed pattern *)
| MongoServerError (msg : string)  (* raised by the store *)
| RepositoryError (msg : string).  (* any rejection of an injected repository *)

Inductive Promise (A : Type) :=
| Resolved (a : A)
| Rejected (e : Error).
Arguments Resolved {A} a.
Arguments Rejected {A} e.

(** [await p] followed by the rest of an [async] body: a rejection of [p]
    rejects the whole body.  Written [x ← p; k]. *)
Global Instance Promise_bind : MBind Promise := fun A B k p =>
  match p with
  | Resolved a => k a
  | Rejected e => Rejected e
  end.

Global Instance Promise_ret : MRet Promise := fun A a => Resolved a.

Global Instance Promise_fmap : FMap Promise := fun A B f p =>
  match p with
  | Resolved a => Resolved (f a)
  | Rejected e => Rejected e
  end.

(** ** JavaScript built-ins used by the service *)

Module Js.

(** [WhiteSpace] and [LineTerminator] code units below U+0100: TAB, LF, VT,
    FF, CR, SP and NBSP. *)
Definition isWhiteSpace (c : ascii) : bool :=
  match c with
  | "009" | "010" | "011" | "012" | "013" | " " | "160" => true
  | _ => false
  end%char.

Fixpoint trimStart (s : string) : string :=
  match s with
  | EmptyString => EmptyString
  | String c s' => if isWhiteSpace c then trimStart s' else s
  end.

Fixpoint trimEnd (s : string) : string :=
  match s with
  | EmptyString => EmptyString
  | String c s' =>
      match trimEnd s' with
      | EmptyString => if isWhiteSpace c then EmptyString else String c EmptyString
      | t => String c t
      end
  end.

(** [String.prototype.trim] *)
Definition trim (s : string) : string := trimEnd (trimStart s).

(** Truthiness of a string: every string but the empty one. *)
Definition truthy (s : string) : bool :=
  match s with EmptyString => false | _ => true end.

(** Value of a digit in radixes up to 36. *)
Definition digitValue (c : ascii) : option Z :=
  let n := Z.of_N (N_of_ascii c) in
  if (48 <=? n) && (n <=? 57) then Some (n - 48)
  else if (97 <=? n) && (n <=? 122) then Some (n - 87)
  else if (65 <=? n) && (n <=? 90) then Some (n - 55)
  else None.

(** The longest prefix of radix-[R] digits, as a number; [acc] is [None]
    until a first digit has been read. *)
Fixpoint parseDigits (R : Z) (acc : option Z) (s : string) : option Z :=
  match s with
  | EmptyString => acc
  | String c s' =>
      match digitValue c with
      | Some d =>
          if d <? R
          then parseDigits R (Some (default 0 acc * R + d)) s'
          else acc
      | None => acc
      end
  end.

(** [parseInt(string, radix)], before the result is rounded to a Number:
    the integer that is read; an omitted radix is [0].  [None] is [NaN]. *)
Definition parseInt (input : string) (radix : Z) : option Z :=
  let S0 := trimStart input in
  let '(sign, S1) :=
    match S0 with
    | String "-" r => (-1, r)
    | String "+" r => (1, r)
    | _ => (1, S0)
    end%char in
  if negb (radix =? 0) && ((radix <? 2) || (36 <? radix)) then None
  else
    let stripPrefix := (radix =? 0) || (radix =? 16) in
    let R := if radix =? 0 then 10 else radix in
    let '(R, S2) :=
      if stripPrefix then
        match S1 with
        | String "0" (String "x" r) | String "0" (String "X" r) => (16, r)
        | _ => (R, S1)
        end%char
      else (R, S1) in
    match parseDigits R None S2 with
    | None => None
    | Some m => Some (sign * m)
    end.

(** [ToString] of a query field that may be [undefined]. *)
Definition toString (v : option string) : string := default "undefined" v.

(** [v ?? d] on a possibly missing string. *)
Definition nullish (v : option string) (d : string) : string := default d v.

(** [n || d] on a number: [NaN] and zero are falsy. *)
Definition orElse (n : option Z) (d : Z) : Z :=
  match n with
  | None => d
  | Some 0 => d
  | Some n => n
  end.

(** *** Number values

    The values that [parseInt] and the arithmetic of [getAllMovies] can
    give: an integer that binary64 represents, an infinity, or [NaN]. *)
Inductive Number :=
| NaN
| Infinity (negative : bool)
| Finite (n : Z).

Global Instance Number_eq_dec : EqDecision Number.
Proof. solve_decision. Defined.

(** The Number value for an integer: the integer itself below 2^53 in
    absolute value; beyond, the nearest multiple of the power of two that
    leaves 53 binary digits, a tie going to the even one; an infinity from
    2^1024 on. *)
Definition toNumber (z : Z) : Number :=
  let a := Z.abs z in
  if a <? 2 ^ 53 then Finite z
  else
    let e := Z.log2 a - 52 in
    let q := a / 2 ^ e in
    let r := a mod 2 ^ e in
    let half := 2 ^ (e - 1) in
    let q' :=
      if r <? half then q
      else if half <? r then q + 1
      else if Z.even q then q else q + 1 in
    let v := q' * 2 ^ e in
    if 2 ^ 1024 <=? v then Infinity (z <? 0) else Finite (Z.sgn z * v).

(** [parseInt(string, radix)] as a Number: the integer read, rounded. *)
Definition parseIntNumber (input : string) (radix : Z) : Number :=
  match parseInt input radix with
  | None => NaN
  | Some m => toNumber m
  end.

(** [x || d]: [NaN] and zero are falsy, an infinity is not. *)
Definition or (x d : Number) : Number :=
  match x with
  | NaN | Finite 0 => d
  | _ => x
  end.

(** [Math.min(x, y)] *)
Definition min (x y : Number) : Number :=
  match x, y with
  | NaN, _ | _, NaN => NaN
  | Infinity true, _ | _, Infinity true => Infinity true
  | Infinity false, v | v, Infinity false => v
  | Finite a, Finite b => Finite (Z.min a b)
  end.

(** [x - y] *)
Definition sub (x y : Number) : Number :=
  match x, y with
  | NaN, _ | _, NaN => NaN
  | Finite a, Finite b => toNumber (a - b)
  | Infinity s, Finite _ => Infinity s
  | Finite _, Infinity s => Infinity (negb s)
  | Infinity s, Infinity s' => if Bool.eqb s s' then NaN else Infinity s
  end.

(** [x * y] *)
Definition mul (x y : Number) : Number :=
  match x, y with
  | NaN, _ | _, NaN => NaN
  | Finite a, Finite b => toNumber (a * b)
  | Infinity s, Finite a | Finite a, Infinity s =>
      if a =? 0 then NaN else Infinity (xorb s (a <? 0))
  | Infinity s, Infinity s' => Infinity (xorb s s')
  end.

(** [Math.ceil(total / limit)] for a count [total].  The quotient by a
    non-zero integer is rounded by less than its distance to the next
    integer, so that its ceiling is the ceiling of the exact quotient; the
    quotient by an infinity is a zero. *)
Definition ceilOfQuotient (total : Z) (limit : Number) : Number :=
  match limit with
  | NaN => NaN
  | Infinity _ => Finite 0
  | Finite 0 => if total =? 0 then NaN else Infinity (total <? 0)
  | Finite n => Finite (Qceiling (inject_Z total / inject_Z n))
  end.

End Js.

(** A value that may be [undefined] or [null]. *)
Inductive Nullable (A : Type) :=
| Undefined
| Null
| Value (a : A).
Arguments Undefined {A}.
Arguments Null {A}.
Arguments Value {A} a.

(** ** Regular expressions

    The genre filter is compiled by [new RegExp(genre, 'i')] in the service
    and evaluated by the store's [$regex] operator.  Neither engine is part
    of the repository; the embedding is parametric in them, and
    [patternEngine] below is the engine on a fragment of the pattern
    syntax. *)

Class RegexEngine := {
  RegExp : Type;
  (** [new RegExp(pattern, 'i')]; [None] when the constructor throws. *)
  newRegExp : string -> option RegExp;
  (** Does the expression match somewhere in the subject? *)
  regexMatch : RegExp -> string -> bool;
}.

(** Case-insensitive substring search on ASCII letters. *)
Definition toLower (c : ascii) : ascii :=
  let n := N_of_ascii c in
  if ((65 <=? n) && (n <=? 90))%N then ascii_of_N (n + 32) else c.

Fixpoint startsWithCI (p s : string) : bool :=
  match p, s with
  | EmptyString, _ => true
  | String _ _, EmptyString => false
  | String a p', String b s' =>
      Ascii.eqb (toLower a) (toLower b) && startsWithCI p' s'
  end.

Fixpoint includesCI (p s : string) : bool :=
  startsWithCI p s ||
  match s with
  | EmptyString => false
  | String _ s' => includesCI p s'
  end.

(** The pattern characters with a meaning of their own. *)
Definition isSyntaxCharacter (c : ascii) : bool :=
  match c with
  | "^" | "$" | "\" | "." | "*" | "+" | "?" | "(" | ")" | "[" | "]"
  | "{" | "}" | "|" => true
  | _ => false
  end%char.

(** A pattern of plain ASCII characters. *)
Fixpoint literalPattern (p : string) : bool :=
  match p with
  | EmptyString => true
  | String c p' =>
      negb (isSyntaxCharacter c) && (N_of_ascii c <? 128)%N && literalPattern p'
  end.

(** *** The engine on a fragment of the pattern syntax

    The fragment: plain ASCII characters, the dot, a backslash before an
    ASCII character that is neither a letter nor a digit, groups [( )] and
    [(?: )], alternation, and the quantifiers [*], [+] and [?], each
    possibly followed by the [?] that makes it lazy.  On this fragment
    [parse] accepts what the constructor of JavaScript accepts, and [test]
    matches as the engine of the store does with the option [i].
    Character classes, braces, anchors, escapes of letters and digits,
    look-around groups and characters from U+0080 are outside the
    fragment: [parse] gives [None] for them as it does for an ill-formed
    pattern, and nothing is stated about them below. *)

Module Pattern.

Inductive t :=
| Fail                 (* matches nothing; no pattern is read as it *)
| Eps                  (* the empty pattern *)
| Chr (c : ascii)      (* a character, letter case apart *)
| Any                  (* the dot *)
| Seq (r s : t)
| Alt (r s : t)
| Star (r : t).

(** What a quantifier met next would apply to: nothing, the atom just
    read, or an atom that has its quantifier and can only take the lazy
    mark. *)
Inductive Last := NoAtom | Atom | Quantified.

(** A disjunction being read: the alternatives closed by a bar and the
    terms of the open one, both with the last read first. *)
Record Frame := {
  alts : list t;
  terms : list t;
  last : Last;
}.

Definition empty : Frame := {| alts := []; terms := []; last := NoAtom |}.

Definition sequence (ts : list t) : t :=
  fold_left (fun acc x => Seq x acc) ts Eps.

Definition close (f : Frame) : t :=
  fold_left (fun acc a => Alt a acc) (alts f) (sequence (terms f)).

Definition push (x : t) (f : Frame) : Frame :=
  {| alts := alts f; terms := x :: terms f; last := Atom |}.

Definition bar (f : Frame) : Frame :=
  {| alts := sequence (terms f) :: alts f; terms := []; last := NoAtom |}.

(** A quantifier applies to the atom just read; there must be one. *)
Definition quantify (q : t -> t) (f : Frame) : option Frame :=
  match last f, terms f with
  | Atom, x :: ts => Some {| alts := alts f; terms := q x :: ts; last := Quantified |}
  | _, _ => None
  end.

(** A question mark is a quantifier after an atom and the lazy mark after
    a quantifier; laziness does not change whether there is a match. *)
Definition question (f : Frame) : option Frame :=
  match last f with
  | Atom => quantify (fun x => Alt x Eps) f
  | Quantified => Some {| alts := alts f; terms := terms f; last := NoAtom |}
  | NoAtom => None
  end.

(** After a backslash: an ASCII character that is neither a letter nor a
    digit stands for itself. *)
Definition escapable (c : ascii) : bool :=
  let n := N_of_ascii c in
  ((n <? 128) && negb (((48 <=? n) && (n <=? 57)) || ((65 <=? n) && (n <=? 90))
                       || ((97 <=? n) && (n <=? 122))))%N.

(** Reading a pattern from left to right; [stack] holds the disjunctions
    of the groups that are open around the current one. *)
Fixpoint read (stack : list Frame) (f : Frame) (p : string) : option t :=
  match p with
  | EmptyString =>
      match stack with
      | [] => Some (close f)
      | _ :: _ => None                              (* unterminated group *)
      end
  | String c p' =>
      if isSyntaxCharacter c then
        match c with
        | "(" =>
            match p' with
            | String "?" (String ":" p'') => read (f :: stack) empty p''
            | String "?" _ => None
            | _ => read (f :: stack) empty p'
            end
        | ")" =>
            match stack with
            | [] => None                            (* unmatched parenthesis *)
            | parent :: stack' => read stack' (push (close f) parent) p'
            end
        | "|" => read stack (bar f) p'
        | "*" => f' ← quantify Star f; read stack f' p'
        | "+" => f' ← quantify (fun x => Seq x (Star x)) f; read stack f' p'
        | "?" => f' ← question f; read stack f' p'
        | "." => read stack (push Any f) p'
        | "\" =>
            match p' with
            | String e p'' =>
                if escapable e then read stack (push (Chr e) f) p'' else None
            | EmptyString => None
            end
        | _ => None
        end%char
      else if (N_of_ascii c <? 128)%N then read stack (push (Chr c) f) p'
      else None
  end.

Definition parse (p : string) : option t := read [] empty p.

(** Does the pattern match the empty string? *)
Fixpoint nullable (r : t) : bool :=
  match r with
  | Fail | Chr _ | Any => false
  | Eps | Star _ => true
  | Seq r s => nullable r && nullable s
  | Alt r s => nullable r || nullable s
  end.

(** What is left of a pattern to match once the character [c] has been
    read.  With the flag [i] two ASCII letters that differ in case only are
    the same.  The dot stands for every character but the line feed: the
    filter is evaluated by the store, whose engine has the line feed as its
    only line end (the matching of JavaScript itself would exclude the
    carriage return as well). *)
Fixpoint deriv (c : ascii) (r : t) : t :=
  match r with
  | Fail | Eps => Fail
  | Chr a => if Ascii.eqb (toLower a) (toLower c) then Eps else Fail
  | Any => if Ascii.eqb c "010" then Fail else Eps
  | Seq r s => Alt (Seq (deriv c r) s) (if nullable r then deriv c s else Fail)
  | Alt r s => Alt (deriv c r) (deriv c s)
  | Star r => Seq (deriv c r) (Star r)
  end.

(** Does the pattern match at the beginning of the subject? *)
Fixpoint matchesPrefix (r : t) (s : string) : bool :=
  nullable r ||
  match s with
  | EmptyString => false
  | String c s' => matchesPrefix (deriv c r) s'
  end.

(** Does it match somewhere in the subject? *)
Fixpoint test (r : t) (s : string) : bool :=
  matchesPrefix r s ||
  match s with
  | EmptyString => false
  | String _ s' => test r s'
  end.

(** The pattern a string of plain characters is read as. *)
Fixpoint literal (p : string) : t :=
  match p with
  | EmptyString => Eps
  | String c p' => Seq (Chr c) (literal p')
  end.

End Pattern.

Definition patternEngine : RegexEngine := {|
  RegExp := Pattern.t;
  newRegExp := Pattern.parse;
  regexMatch := Pattern.test;
|}.

(** ** Data model *)

(** An [_id], in its hexadecimal string form. *)
Definition ObjectId := string.

Module Movie.
(** Modelled from the spec: the schema [models/movie.js] is not among the
    sources.  A movie has a title, a free-form genre text, which the
    response allows to be absent, and a release year; its [_id] is its key
    in the collection. *)
Record t := mk {
  title : string;
  genre : option string;
  release_year : option Z;
}.
End Movie.

Module Rating.
(** Modelled from the spec: the schema [models/rating.js] is not among the
    sources.  A rating refers to a movie by [_id] and carries a numeric
    score. *)
Record t := mk {
  movie : ObjectId;   (* reference to a movie [_id] *)
  rating : Q;         (* the score *)
}.
End Rating.

Record Database := {
  movies : gmap ObjectId Movie.t;
  ratings : list Rating.t;
}.

(** ** [RatingRepository.getTopRatedAggregates]: the aggregation pipeline *)

Module RatingRepository.

(** *** The plain queries *)

(** The [options] of [getAllRatings]: [skip] and [limit] are numbers or
    missing.  A cursor accepts no negative [skip], and the callers of this
    repository are not among the sources; the numbers are taken to be
    natural. *)
Record CursorOptions := {
  c_skip : option N;
  c_limit : option N;
}.

(** [n || d] on such a number: a missing one and zero are falsy. *)
Definition orDefault (n : option N) (d : N) : N :=
  match n with
  | None | Some 0%N => d
  | Some n => n
  end.

(** [RatingModel.find(filter)]: the documents that satisfy the filter, in
    natural order.  A filter object is what it decides for each document;
    the default [{}] accepts all of them. *)
Definition findRatings (db : Database) (filter : Rating.t -> bool) : list Rating.t :=
  base.filter (fun r => filter r) (ratings db).

(** [RatingModel.find(filter).skip(options.skip || 0)
    .limit(options.limit || 10).exec()] *)
Definition getAllRatings (db : Database) (filter : Rating.t -> bool)
    (options : CursorOptions) : Promise (list Rating.t) :=
  Resolved (take (N.to_nat (orDefault (c_limit options) 10))
              (drop (N.to_nat (orDefault (c_skip options) 0))
                 (findRatings db filter))).

(** [RatingModel.countDocuments(filter).exec()] *)
Definition countRatings (db : Database) (filter : Rating.t -> bool)
    : Promise N :=
  Resolved (N.of_nat (length (findRatings db filter))).

(** [RatingModel.find({ movie: movieId }).exec()] *)
Definition getRatingsByMovieId (db : Database) (movieId : ObjectId)
    : Promise (list Rating.t) :=
  Resolved (findRatings db (fun r => bool_decide (Rating.movie r = movieId))).

(** *** The aggregation *)

(** A rating after [$lookup] and [$unwind]: its [movie] field now holds the
    movie document it referred to. *)
Record Joined := {
  j_rating : Q;
  j_movie_id : ObjectId;
  j_movie : Movie.t;
}.

(** A document produced by [$group] (and kept until [$project]). *)
Record Group := {
  _id : ObjectId;
  g_movieId : ObjectId;
  g_title : string;
  g_genre : option string;
  g_avgRating : Q;
  g_voteCount : Z;
}.

(** A document of the result, after [$project]. *)
Record Row := {
  movieId : ObjectId;
  title : string;
  genre : option string;
  avgRating : Q;
  voteCount : Z;
}.

(** [{ $lookup: { from: 'movies', localField: 'movie', foreignField: '_id',
    as: 'movie' } }, { $unwind: '$movie' }]: the looked-up array holds the
    one movie with that [_id], or nothing; unwinding an empty array drops
    the rating. *)
Definition lookup_unwind (ms : gmap ObjectId Movie.t) (rs : list Rating.t)
    : list Joined :=
  omap (fun r =>
          m ← ms !! Rating.movie r;
          Some {| j_rating := Rating.rating r;
                  j_movie_id := Rating.movie r;
                  j_movie := m |}) rs.

Section Pipeline.
Context `{E : RegexEngine}.

(** [{ $match: { 'movie.genre': { $regex: genreRegex } } }]: a document
    without a [genre] does not match. *)
Definition genreMatches (re : RegExp) (m : Movie.t) : bool :=
  match Movie.genre m with
  | Some g => regexMatch re g
  | None => false
  end.

Definition match_genre (genreRegex : option RegExp) (js : list Joined)
    : list Joined :=
  match genreRegex with
  | Some re => filter (fun j => genreMatches re (j_movie j)) js
  | None => js
  end.

End Pipeline.

(** The accumulators of one group: [$first] of the three movie fields, and
    the running sum and count behind [$avg] and [$sum: 1]. *)
Record Acc := {
  acc_id : ObjectId;
  acc_title : string;
  acc_genre : option string;
  acc_sum : Q;
  acc_count : Z;
}.

Definition acc_init (j : Joined) : Acc :=
  {| acc_id := j_movie_id j;
     acc_title := Movie.title (j_movie j);
     acc_genre := Movie.genre (j_movie j);
     acc_sum := j_rating j;
     acc_count := 1 |}.

Definition acc_add (a : Acc) (j : Joined) : Acc :=
  {| acc_id := acc_id a;
     acc_title := acc_title a;
     acc_genre := acc_genre a;
     acc_sum := acc_sum a + j_rating j;
     acc_count := acc_count a + 1 |}.

(** One document enters the group of its key, or opens a new group behind
    the existing ones. *)
Fixpoint accumulate (accs : list Acc) (j : Joined) : list Acc :=
  match accs with
  | [] => [acc_init j]
  | a :: accs' =>
      if decide (acc_id a = j_movie_id j)
      then acc_add a j :: accs'
      else a :: accumulate accs' j
  end.

Definition finalize (a : Acc) : Group :=
  {| _id := acc_id a;
     g_movieId := acc_id a;
     g_title := acc_title a;
     g_genre := acc_genre a;
     g_avgRating := acc_sum a / inject_Z (acc_count a);
     g_voteCount := acc_count a |}.

(** [{ $group: { _id: '$movie._id', movieId: { $first: '$movie._id' },
    title: { $first: '$movie.title' }, genre: { $first: '$movie.genre' },
    avgRating: { $avg: '$rating' }, voteCount: { $sum: 1 } } }].
    Groups come out in the order in which their keys first appear; the engine
    promises no order, and [$sort] follows. *)
Definition group (js : list Joined) : list Group :=
  finalize <$> foldl accumulate [] js.

(** [{ $match: { voteCount: { $gte: Number(minVotes) } } }] *)
Definition match_votes (minVotes : Z) (gs : list Group) : list Group :=
  filter (fun g => minVotes <= g_voteCount g) gs.

(** [{ $sort: { avgRating: -1, voteCount: -1, title: 1 } }]: [a] may stand
    before [b].  Strings compare code unit by code unit. *)
Definition sortLeb (a b : Group) : bool :=
  match Qcompare (g_avgRating b) (g_avgRating a) with
  | Lt => true
  | Gt => false
  | Eq =>
      match Z.compare (g_voteCount b) (g_voteCount a) with
      | Lt => true
      | Gt => false
      | Eq => String.leb (g_title a) (g_title b)
      end
  end.

Definition sortOrder (a b : Group) : Prop := sortLeb a b = true.

Global Instance sortOrder_dec : RelDecision sortOrder.
Proof. intros a b. unfold sortOrder. apply _. Defined.

Definition sort (gs : list Group) : list Group := merge_sort sortOrder gs.

(** [{ $limit: Number(limit) }]: the store refuses a limit that is not
    positive. *)
Definition limit_stage (limit : Z) (gs : list Group) : Promise (list Group) :=
  if 0 <? limit then Resolved (take (Z.to_nat limit) gs)
  else Rejected (MongoServerError "the limit must be positive").

(** [$round] to [place] = 3: the nearest multiple of 1/1000, a half going to
    the even neighbour. *)
Definition roundHalfEven (q : Q) : Z :=
  let f := Qfloor q in
  match (q - inject_Z f ?= 1 # 2)%Q with
  | Lt => f
  | Gt => f + 1
  | Eq => if Z.even f then f else f + 1
  end.

Definition round3 (q : Q) : Q := roundHalfEven (q * 1000) # 1000.

(** [{ $project: { _id: 0, movieId: 1, title: 1, genre: 1,
    avgRating: { $round: ['$avgRating', 3] }, voteCount: 1 } }] *)
Definition project (g : Group) : Row :=
  {| movieId := g_movieId g;
     title := g_title g;
     genre := g_genre g;
     avgRating := round3 (g_avgRating g);
     voteCount := g_voteCount g |}.

Section Aggregate.
Context `{E : RegexEngine}.

(** The documents that reach [$project], in their final order. *)
Definition ranked (db : Database) (genreRegex : option RegExp)
    (minVotes limit : Z) : Promise (list Group) :=
  limit_stage limit
    (sort (match_votes minVotes
             (group (match_genre genreRegex
                       (lookup_unwind (movies db) (ratings db)))))).

(** [RatingModel.aggregate(pipeline).allowDiskUse(true).exec()] on a store
    that answers, [db] being its collections: the only rejection left is
    that of [$limit].  A data access that fails rejects the call whatever
    the pipeline; the service meets it as a rejection of its repository
    ([MovieService.getTopRated_with]). *)
Definition getTopRatedAggregates (db : Database) (genreRegex : option RegExp)
    (minVotes limit : Z) : Promise (list Row) :=
  ranked db genreRegex minVotes limit ≫= fun gs : list Group =>
  Resolved (project <$> gs).

End Aggregate.

End RatingRepository.

(** ** The movie repository, as the service sees it

    [MovieService] receives its [movieRepository] through its constructor
    and only calls these three methods in the operations below. *)

Definition MovieDoc : Type := ObjectId * Movie.t.

Section Repository.
Context `{E : RegexEngine}.

(** The [filter] object built by [getAllMovies]: each key is set or absent. *)
Record MovieFilter := {
  f_genre : option RegExp;       (* [{ $regex: ... }] *)
  f_release_year : option Js.Number;
}.

Record FindOptions := {
  o_limit : Js.Number;
  o_skip : Js.Number;
}.

Record MovieRepository := {
  repo_getAllMovies : MovieFilter -> FindOptions -> Promise (list MovieDoc);
  repo_countMovies : MovieFilter -> Promise Z;
  repo_getMovie : ObjectId -> Promise (Nullable MovieDoc);
}.

End Repository.

(** ** [MovieService] *)

Module MovieService.

Import RatingRepository.

(** The query string of a request, after parsing: each parameter is a string
    or is missing. *)
Record Query := {
  q_genre : option string;
  q_year : option string;
  q_page : option string;
  q_limit : option string;
  q_minVotes : option string;
}.

(** *** [getAllMovies] *)

(** [parseInt(query.year)], kept in the filter when it is not [NaN]. *)
Definition getAllMovies_year (query : Query) : option Js.Number :=
  match Js.parseIntNumber (Js.toString (q_year query)) 0 with
  | Js.NaN => None
  | year => Some year
  end.

(** [parseInt(query.page) || 1] *)
Definition getAllMovies_page (query : Query) : Js.Number :=
  Js.or (Js.parseIntNumber (Js.toString (q_page query)) 0) (Js.Finite 1).

(** [Math.min(parseInt(query.limit) || 10, 100)] *)
Definition getAllMovies_limit (query : Query) : Js.Number :=
  Js.min (Js.or (Js.parseIntNumber (Js.toString (q_limit query)) 0) (Js.Finite 10))
         (Js.Finite 100).

(** [(page - 1) * limit] *)
Definition getAllMovies_skip (query : Query) : Js.Number :=
  Js.mul (Js.sub (getAllMovies_page query) (Js.Finite 1)) (getAllMovies_limit query).

Record Listing := {
  l_movies : list MovieDoc;
  l_total : Z;
  l_page : Js.Number;
  l_pages : Js.Number;
}.

Section Service.
Context `{E : RegexEngine}.

(** [new RegExp(pattern, 'i')] as a step of an [async] body. *)
Definition compile (pattern : string) : Promise RegExp :=
  match newRegExp pattern with
  | Some re => Resolved re
  | None => Rejected (SyntaxError pattern)
  end.

(** The [filter] object: [genre] is set when [query.genre] is truthy,
    [release_year] when [parseInt(query.year)] is a number. *)
Definition getAllMovies_filter (query : Query) : Promise MovieFilter :=
  genre ←
    match q_genre query with
    | Some g => if Js.truthy g then Some <$> compile g else Resolved None
    | None => Resolved None
    end;
  Resolved {| f_genre := genre;
              f_release_year := getAllMovies_year query |}.

(** Both repository calls are started together by [Promise.all]; the body
    goes on once both have resolved. *)
Definition getAllMovies (movieRepository : MovieRepository) (query : Query)
    : Promise Listing :=
  filter ← getAllMovies_filter query;
  let page := getAllMovies_page query in
  let limit := getAllMovies_limit query in
  let skip := getAllMovies_skip query in
  let options := {| o_limit := limit; o_skip := skip |} in
  movies ← repo_getAllMovies movieRepository filter options;
  total ← repo_countMovies movieRepository filter;
  Resolved {| l_movies := movies;
              l_total := total;
              l_page := page;
              l_pages := Js.ceilOfQuotient total limit |}.

(** *** [getTopRated] *)

(** [(query.genre ?? '').trim()] *)
Definition getTopRated_genre (query : Query) : string :=
  Js.trim (Js.nullish (q_genre query) "").

(** [Math.min(100, Math.max(1, parseInt(query.minVotes ?? '3', 10) || 3))] *)
Definition getTopRated_minVotes (query : Query) : Z :=
  Z.min 100
    (Z.max 1 (Js.orElse (Js.parseInt (Js.nullish (q_minVotes query) "3") 10) 3)).

(** [Math.min(50, Math.max(1, parseInt(query.limit ?? '10', 10) || 10))] *)
Definition getTopRated_limit (query : Query) : Z :=
  Z.min 50
    (Z.max 1 (Js.orElse (Js.parseInt (Js.nullish (q_limit query) "10") 10) 10)).

(** [genre ? new RegExp(genre, 'i') : null] *)
Definition getTopRated_genreRegex (query : Query) : Promise (option RegExp) :=
  let genre := getTopRated_genre query in
  if Js.truthy genre then Some <$> compile genre else Resolved None.

Record Meta := {
  generatedAt : string;
  m_limit : Z;
  m_minVotes : Z;
  m_genre : option string;
}.

Record TopRated := {
  data : list Row;
  meta : Meta;
}.

(** An entry of the payload; [r.genre ?? null] and [Number(...)] leave the
    values of a row as they are. *)
Definition entry (r : Row) : Row :=
  {| movieId := movieId r;
     title := title r;
     genre := genre r;
     avgRating := avgRating r;
     voteCount := voteCount r |}.

(** The one method of [this.ratingRepository] that [getTopRated] calls,
    [getTopRatedAggregates({ genreRegex, minVotes, limit })]: the
    repository is injected through the constructor, and its answer is a
    rejection when the data access fails. *)
Definition RatingAggregates : Type :=
  option RegExp -> Z -> Z -> Promise (list Row).

(** [getTopRated] for the repository it is given.  [now] is what
    [new Date().toISOString()] reads from the clock. *)
Definition getTopRated_with (now : string) (ratingRepository : RatingAggregates)
    (query : Query) : Promise TopRated :=
  let genre := getTopRated_genre query in
  let minVotes := getTopRated_minVotes query in
  let limit := getTopRated_limit query in
  genreRegex ← getTopRated_genreRegex query;
  ratingRepository genreRegex minVotes limit ≫= fun rows : list Row =>
  Resolved {| data := entry <$> rows;
              meta := {| generatedAt := now;
                         m_limit := limit;
                         m_minVotes := minVotes;
                         m_genre := if Js.truthy genre then Some genre else None |} |}.

(** [getTopRated] with the [RatingRepository] of the project over the
    collections [db] of a store that answers. *)
Definition getTopRated (now : string) (db : Database) (query : Query)
    : Promise TopRated :=
  let genre := getTopRated_genre query in
  let minVotes := getTopRated_minVotes query in
  let limit := getTopRated_limit query in
  genreRegex ← getTopRated_genreRegex query;
  getTopRatedAggregates db genreRegex minVotes limit ≫= fun rows : list Row =>
  Resolved {| data := entry <$> rows;
              meta := {| generatedAt := now;
                         m_limit := limit;
                         m_minVotes := minVotes;
                         m_genre := if Js.truthy genre then Some genre else None |} |}.

(** *** [getMovie] *)

(** [movie || null]: a document is truthy. *)
Definition orNull {A} (v : Nullable A) : Nullable A :=
  match v with
  | Value a => Value a
  | Undefined | Null => Null
  end.

Definition getMovie (movieRepository : MovieRepository) (id : ObjectId)
    : Promise (Nullable MovieDoc) :=
  movie ← repo_getMovie movieRepository id;
  Resolved (orNull movie).

(** *** [getMovieRatings] *)

Definition getMovieRatings (db : Database) (movieId : ObjectId)
    : Promise (list Rating.t) :=
  getRatingsByMovieId db movieId.

End Service.

End MovieService.

(** ** A repository over the [movies] collection *)

Section MongoRepository.
Context `{E : RegexEngine}.

Definition movieMatches (f : MovieFilter) (d : MovieDoc) : bool :=
  match f_genre f with
  | Some re => RatingRepository.genreMatches re d.2
  | None => true
  end &&
  match f_release_year f with
  | Some y => bool_decide (Js.Finite <$> Movie.release_year d.2 = Some y)
  | None => true
  end.

(** Modelled from the spec: [repositories/MovieRepository.js] is not among
    the sources.  The listing filters by genre
    pattern and exact release year and pages the matches with [skip] and
    [limit]; the count is that of the matches; the fetch by id yields the
    document or [null].  The specification is silent on a [skip] that is
    not a natural number and on a [limit] that is not a positive one: the
    store is taken to refuse them. *)
Definition mongoMovieRepository (db : Database) : MovieRepository := {|
  repo_getAllMovies f o :=
    match o_limit o, o_skip o with
    | Js.Finite limit, Js.Finite skip =>
        if (0 <? limit) && (0 <=? skip)
        then Resolved (take (Z.to_nat limit)
                         (drop (Z.to_nat skip)
                            (filter (movieMatches f) (map_to_list (movies db)))))
        else Rejected (MongoServerError "skip and limit must be natural numbers")
    | _, _ => Rejected (MongoServerError "skip and limit must be natural numbers")
    end;
  repo_countMovies f :=
    Resolved (Z.of_nat (length (filter (movieMatches f)
                                  (map_to_list (movies db)))));
  repo_getMovie id :=
    Resolved (match movies db !! id with
              | Some m => Value (id, m)
              | None => Null
              end);
|}.

End MongoRepository.

(** ** The error handler of [server/server.js] *)

Module Server.

(** An error as the handler reads it: its [status], a number or missing,
    its [message], and whatever else it holds (its stack, the failed query,
    a cause). *)
Record HttpError := {
  status : option Z;
  message : string;
  detail : list (string * string);
}.

(** What [res.json] is given: the object [{ error: message }], or the copy
    of the whole error made by [JSON.decycle]. *)
Inductive Body :=
| ErrorOnly (error : string)
| Decycled (copy : HttpError).

(** The arguments of [res.status(...).json(...)]. *)
Record Response := {
  r_status : Z;
  r_body : Body;
}.

(** [!err.status] *)
Definition noStatus (err : HttpError) : bool :=
  match status err with
  | None | Some 0 => true
  | Some _ => false
  end.

(** [http.STATUS_CODES[500]] *)
Definition STATUS_CODES_500 : string := "Internal Server Error".

(** The error-handling middleware; [production] is
    [process.env.NODE_ENV === 'production']. *)
Definition errorHandler (production : bool) (err : HttpError) : Response :=
  if production then
    let err :=
      if noStatus err
      then {| status := Some 500; message := STATUS_CODES_500;
              detail := detail err |}
      else err in
    {| r_status := default 0 (status err); r_body := ErrorOnly (message err) |}
  else
    {| r_status := Js.orElse (status err) 500; r_body := Decycled err |}.

End Server.

(** ** The base URL of [src/server.js] *)

Module App.

(** [s.replace(/\/$/, '')]: a slash that ends the string is removed. *)
Fixpoint stripTrailingSlash (s : string) : string :=
  match s with
  | EmptyString => EmptyString
  | String c EmptyString => if Ascii.eqb c "/" then EmptyString else s
  | String c s' => String c (stripTrailingSlash s')
  end.

(** [(process.env.BASE_URL || '').replace(/\/$/, '') + '/']; the variable
    is a string or is not set. *)
Definition baseURL (BASE_URL : option string) : string :=
  stripTrailingSlash (default "" BASE_URL) +:+ "/".

End App.

(** ** The chart script ([getTopRatedMovies], the version that queries
    [/api/v1/movies/top-rated]) *)

Module ChartClient.

(** The [URLSearchParams] of the request, as the list of its name and value
    pairs: [genre] is appended only when the trimmed value of the select
    element is not empty, then [minVotes=3] and [limit=10].  The text that
    [toString] makes of them is not modelled. *)
Definition queryParams (value : string) : list (string * string) :=
  let selectedGenre := Js.trim value in
  (if Js.truthy selectedGenre then [("genre", selectedGenre)] else []) ++
  [("minVotes", "3"); ("limit", "10")].

Definition chartColors : list string :=
  [ "rgba(255, 99, 132, 0.3)"; "rgba(54, 162, 235, 0.3)";
    "rgba(255, 206, 86, 0.3)"; "rgba(75, 192, 192, 0.3)";
    "rgba(153, 102, 255, 0.3)"; "rgba(255, 159, 64, 0.3)";
    "rgba(199, 199, 199, 0.3)"; "rgba(255, 99, 255, 0.3)";
    "rgba(100, 255, 100, 0.3)"; "rgba(0, 204, 255, 0.3)" ].

End ChartClient.

(** ** The HTTP boundary of the top-rated query *)

Module Api.

Import MovieService.

(** Modelled from the spec: the HTTP boundary parses the query parameters
    of a request.  A request is taken as the list of the name and value
    pairs of its query string, after decoding; the value of a parameter is
    that of the first pair with its name, and a name that does not occur is
    missing. *)
Fixpoint param (name : string) (params : list (string * string))
    : option string :=
  match params with
  | [] => None
  | (n, v) :: rest => if String.eqb n name then Some v else param name rest
  end.

(** Modelled from the spec: the route of [GET /movies/top-rated] and its
    controller are not among the sources ([MovieController.js] is missing,
    and no router of the sources registers the path).  The aggregation is
    invoked through an HTTP boundary that parses the query parameters
    [genre], [minVotes] and [limit] of the request: the query object that
    [getTopRated] receives holds the value of each parameter that the
    request carries, as a string; each name is taken to occur at most
    once. *)
Definition query (params : list (string * string)) : Query :=
  {| q_genre := param "genre" params;
     q_year := param "year" params;
     q_page := param "page" params;
     q_limit := param "limit" params;
     q_minVotes := param "minVotes" params |}.

End Api.

(** ** The chart script that aggregates in the browser
    ([src/client/js/main.js]) *)

Module ClientMain.

(** *** Fetching the ratings *)

(** A rating as the ratings endpoint serves it: a link to its movie and a
    score. *)
Record RatingItem := {
  movie : string;
  rating : Q;
}.

(** What one turn of the loop makes of a request for a page: the status is
    429; or the page arrives and [data.data] is spread into [allRatings];
    or anything in the [try] block throws. *)
Inductive Answer :=
| TooManyRequests
| Page (data : list RatingItem)
| Failure.

Definition MAX_PAGES : nat := 5.

(** The [while (page <= MAX_PAGES)] loop, run against the answers the
    requests get, in order.  [None]: the loop is still asking when the
    answers end. *)
Fixpoint fetchLoop (page : nat) (allRatings : list RatingItem)
    (answers : list Answer) : option (list RatingItem) :=
  match answers with
  | [] => if (page <=? MAX_PAGES)%nat then None else Some allRatings
  | a :: rest =>
      if (page <=? MAX_PAGES)%nat then
        match a with
        | TooManyRequests => fetchLoop page allRatings rest
        | Page data => fetchLoop (S page) (allRatings ++ data) rest
        | Failure => Some allRatings
        end
      else Some allRatings
  end.

(** [let page = 1; const allRatings = []] and the loop. *)
Definition fetchRatings (answers : list Answer) : option (list RatingItem) :=
  fetchLoop 1 [] answers.

(** *** Grouping *)

Fixpoint hasSlash (s : string) : bool :=
  match s with
  | EmptyString => false
  | String c s' => Ascii.eqb c "/" || hasSlash s'
  end.

(** [s.split('/').pop()]: what follows the last slash, or all of [s]. *)
Fixpoint lastSegment (s : string) : string :=
  match s with
  | EmptyString => EmptyString
  | String c s' => if hasSlash s then lastSegment s' else s
  end.

(** The property names every object inherits from [Object.prototype]:
    [ratingMap[name]] is then a function or an object, which is truthy and
    has no [push]. *)
Definition inherited : list string :=
  [ "constructor"; "__defineGetter__"; "__defineSetter__"; "hasOwnProperty";
    "__lookupGetter__"; "__lookupSetter__"; "isPrototypeOf";
    "propertyIsEnumerable"; "toString"; "valueOf"; "__proto__";
    "toLocaleString" ].

(** The result of the part of the function that follows the loop: it
    returns, or a [TypeError] is thrown while grouping, or a request for a
    movie fails. *)
Inductive Outcome (A : Type) :=
| Done (a : A)
| TypeError
| FetchError.
Arguments Done {A} a.
Arguments TypeError {A}.
Arguments FetchError {A}.

(** [ratingMap]: its own properties, in the order of their creation. *)
Definition RatingMap : Type := list (string * list Q).

(** [if (!ratingMap[movieId]) ratingMap[movieId] = [];
    ratingMap[movieId].push(score)] for a name that is not inherited. *)
Fixpoint push (m : RatingMap) (movieId : string) (score : Q) : RatingMap :=
  match m with
  | [] => [(movieId, [score])]
  | (k, scores) :: m' =>
      if String.eqb k movieId then (k, scores ++ [score]) :: m'
      else (k, scores) :: push m' movieId score
  end.

(** [for (const rating of allRatings) { ... }] *)
Fixpoint groupFrom (m : RatingMap) (allRatings : list RatingItem)
    : Outcome RatingMap :=
  match allRatings with
  | [] => Done m
  | r :: rest =>
      let movieId := lastSegment (movie r) in
      if bool_decide (movieId ∈ inherited) then TypeError
      else groupFrom (push m movieId (rating r)) rest
  end.

(** The number an array index stands for: a name that is the canonical
    decimal form of an integer below [2^32 - 1]. *)
Fixpoint digits (acc : N) (s : string) : option N :=
  match s with
  | EmptyString => Some acc
  | String c s' =>
      let n := N_of_ascii c in
      if ((48 <=? n) && (n <=? 57))%N then digits (acc * 10 + (n - 48)) s'
      else None
  end.

Definition arrayIndex (s : string) : option N :=
  match s with
  | EmptyString => None
  | String "0" EmptyString => Some 0%N
  | String "0" _ => None
  | _ => match digits 0 s with
         | Some n => if (n <? 4294967295)%N then Some n else None
         | None => None
         end
  end%char.

Definition indexOrder (a b : string * list Q) : Prop :=
  (default 0 (arrayIndex a.1) <= default 0 (arrayIndex b.1))%N.

Global Instance indexOrder_dec : RelDecision indexOrder.
Proof. intros a b. unfold indexOrder. apply _. Defined.

(** [Object.entries(ratingMap)]: the array indices in ascending order, then
    the other names in the order of their creation. *)
Definition entries (m : RatingMap) : list (string * list Q) :=
  merge_sort indexOrder (filter (fun e => is_Some (arrayIndex e.1)) m) ++
  filter (fun e => arrayIndex e.1 = None) m.

(** *** Averages, genres and the ranking *)

Record Row := {
  movieId : string;
  avgRating : Q;
  count : nat;
  genre : string;
  title : string;
}.

(** [scores.reduce((a, b) => a + b, 0) / scores.length] *)
Definition average (scores : list Q) : Q :=
  (foldl Qplus 0 scores / inject_Z (Z.of_nat (length scores)))%Q.

(** What the movie endpoint answers for an id, as far as the script reads
    it: [data.genre] and [data.title], each a string or missing. *)
Record MovieData := {
  md_genre : option string;
  md_title : option string;
}.

(** [s || d] on a string that may be missing. *)
Definition orString (s : option string) (d : string) : string :=
  match s with
  | None | Some EmptyString => d
  | Some s => s
  end.

(** The requests of [Promise.all(avgRatings.map(async (r) => ...))]:
    [movieData id] is [None] when the request for [id], or the reading of
    its answer, throws. *)
Fixpoint enrich (movieData : string -> option MovieData)
    (avgRatings : list (string * list Q)) : Outcome (list Row) :=
  match avgRatings with
  | [] => Done []
  | (id, scores) :: rest =>
      match movieData id, enrich movieData rest with
      | Some d, Done rows =>
          Done ({| movieId := id;
                   avgRating := average scores;
                   count := length scores;
                   genre := orString (md_genre d) "";
                   title := orString (md_title d) "Unknown" |} :: rows)
      | _, _ => FetchError
      end
  end.

(** [String.prototype.toLowerCase] on code units below U+0100. *)
Definition lowerChar (c : ascii) : ascii :=
  let n := N_of_ascii c in
  if ((65 <=? n) && (n <=? 90))%N ||
     ((192 <=? n) && (n <=? 222) && negb (n =? 215))%N
  then ascii_of_N (n + 32) else c.

Fixpoint toLowerCase (s : string) : string :=
  match s with
  | EmptyString => EmptyString
  | String c s' => String (lowerChar c) (toLowerCase s')
  end.

Fixpoint startsWith (p s : string) : bool :=
  match p, s with
  | EmptyString, _ => true
  | String _ _, EmptyString => false
  | String a p', String b s' => Ascii.eqb a b && startsWith p' s'
  end.

(** [s.includes(p)] *)
Fixpoint includes (s p : string) : bool :=
  startsWith p s ||
  match s with
  | EmptyString => false
  | String _ s' => includes s' p
  end.

(** The predicate of [enrichedRatings.filter]:
    [(!selectedGenre || r.genre.toLowerCase().includes(selectedGenre)) &&
     r.count >= 3] *)
Definition keeps (selectedGenre : string) (r : Row) : bool :=
  (negb (Js.truthy selectedGenre) ||
   includes (toLowerCase (genre r)) selectedGenre) &&
  (3 <=? count r)%nat.

(** [sort((a, b) => b.avgRating - a.avgRating)]: the sort is stable, so [x]
    goes before the first [y] that is not rated higher. *)
Fixpoint insert (x : Row) (l : list Row) : list Row :=
  match l with
  | [] => [x]
  | y :: l' =>
      if Qle_bool (avgRating y) (avgRating x) then x :: y :: l'
      else y :: insert x l'
  end.

Definition sortByAverage (l : list Row) : list Row := foldr insert [] l.

(** From [ratingMap] to [top10]; [selected] is the value of the genre
    selection. *)
Definition top10 (allRatings : list RatingItem) (selected : string)
    (movieData : string -> option MovieData) : Outcome (list Row) :=
  match groupFrom [] allRatings with
  | Done ratingMap =>
      let selectedGenre := toLowerCase selected in
      match enrich movieData (entries ratingMap) with
      | Done enrichedRatings =>
          Done (take 10 (sortByAverage
                           (filter (fun r => keeps selectedGenre r)
                              enrichedRatings)))
      | TypeError => TypeError
      | FetchError => FetchError
      end
  | TypeError => TypeError
  | FetchError => FetchError
  end.

End ClientMain.

(** ** Vocabulary of the specification *)

(** Clamping to an inclusive range. *)
Definition clamp (lo hi n : Z) : Z := Z.min hi (Z.max lo n).

(** A string that is empty or holds white space only. *)
Fixpoint blank (s : string) : bool :=
  match s with
  | EmptyString => true
  | String c s' => Js.isWhiteSpace c && blank s'
  end.

(** The scores of the ratings that refer to a movie, in collection order. *)
Definition scoresOf (db : Database) (id : ObjectId) : list Q :=
  Rating.rating <$> filter (fun r => Rating.movie r = id) (ratings db).

Definition Qsum (l : list Q) : Q := foldr Qplus 0%Q l.

(** The arithmetic mean. *)
Definition mean (l : list Q) : Q := (Qsum l / inject_Z (Z.of_nat (length l)))%Q.

Section Eligible.
Context `{E : RegexEngine}.

(** Does a movie pass the genre filter of a query? *)
Definition passesGenre (genreRegex : option RegExp) (m : Movie.t) : bool :=
  match genreRegex with
  | Some re => RatingRepository.genreMatches re m
  | None => true
  end.

(** The distinct movies that pass the genre filter and have at least
    [minVotes] ratings. *)
Definition eligible (db : Database) (genreRegex : option RegExp) (minVotes : Z)
    : list MovieDoc :=
  filter
    (fun d => passesGenre genreRegex d.2 /\
              minVotes <= Z.of_nat (length (scoresOf db d.1)))
    (map_to_list (movies db)).

End Eligible.

(** The three-level order between an entry [A] and the entry [B] after it,
    [x] and [y] being the averages compared at the first level. *)
Definition tieBreak (x y : Q) (A B : RatingRepository.Row) : Prop :=
  (y < x)%Q \/
  (x == y /\ RatingRepository.voteCount B < RatingRepository.voteCount A) \/
  (x == y /\ RatingRepository.voteCount A = RatingRepository.voteCount B /\
   String.leb (RatingRepository.title A) (RatingRepository.title B) = true).

(** Does the genre of a movie contain [p], letter case apart? *)
Definition genreIncludes (p : string) (m : Movie.t) : bool :=
  match Movie.genre m with
  | Some g => includesCI p g
  | None => false
  end.

(** Does a rating refer to a movie of the collection that [keep]
    accepts? *)
Definition refersTo (keep : Movie.t -> bool) (ms : gmap ObjectId Movie.t)
    (r : Rating.t) : bool :=
  match ms !! Rating.movie r with
  | Some m => keep m
  | None => false
  end.

(** The collections with the ratings of such movies only. *)
Definition ratingsWhere (keep : Movie.t -> bool) (db : Database) : Database :=
  {| movies := movies db;
     ratings := filter (fun r => refersTo keep (movies db) r) (ratings db) |}.

(** The collections with the ratings that refer to a movie whose genre
    contains [p], letter case apart. *)
Definition ratingsOfGenre (p : string) (db : Database) : Database :=
  ratingsWhere (genreIncludes p) db.

(** The strings that a pattern matches from their first to their last
    character, letter case apart. *)
Inductive Matches : Pattern.t -> string -> Prop :=
| Matches_Eps : Matches Pattern.Eps ""
| Matches_Chr (a c : ascii) :
    toLower a = toLower c -> Matches (Pattern.Chr a) (String c "")
| Matches_Any (c : ascii) :
    c <> "010"%char -> Matches Pattern.Any (String c "")
| Matches_Seq (r s : Pattern.t) (u v : string) :
    Matches r u -> Matches s v -> Matches (Pattern.Seq r s) (u ++ v)
| Matches_Alt_l (r s : Pattern.t) (u : string) :
    Matches r u -> Matches (Pattern.Alt r s) u
| Matches_Alt_r (r s : Pattern.t) (u : string) :
    Matches s u -> Matches (Pattern.Alt r s) u
| Matches_Star_nil (r : Pattern.t) : Matches (Pattern.Star r) ""
| Matches_Star_app (r : Pattern.t) (u v : string) :
    Matches r u -> Matches (Pattern.Star r) v ->
    Matches (Pattern.Star r) (u ++ v).

(** [Math.ceil] of the quotient of two integers as the binary64 format of
    the Standard Library computes it. *)
Definition binary64_ceilOfQuotient (total n : Z) : Js.Number :=
  match SFdiv 53 1024 (binary_normalize 53 1024 total 0 false)
                      (binary_normalize 53 1024 n 0 false) with
  | S754_zero _ => Js.Finite 0
  | S754_infinity s => Js.Infinity s
  | S754_nan => Js.NaN
  | S754_finite s m e =>
      let v := if s then - Z.pos m else Z.pos m in
      Js.Finite (if e <? 0 then - ((- v) / 2 ^ (- e)) else v * 2 ^ e)
  end.

(** The Number value of an integer as the binary64 format of the Standard
    Library rounds it. *)
Definition binary64 (z : Z) : Js.Number :=
  match binary_normalize 53 1024 z 0 false with
  | S754_zero _ => Js.Finite 0
  | S754_infinity s => Js.Infinity s
  | S754_nan => Js.NaN
  | S754_finite s m e =>
      Js.Finite ((if s then -1 else 1) *
                 (if e <? 0 then Z.pos m / 2 ^ (- e) else Z.pos m * 2 ^ e))
  end.

(** The entry a movie of the collection has, or would have, in a
    response. *)
Definition entryOf (db : Database) (d : MovieDoc) : RatingRepository.Row :=
  {| RatingRepository.movieId := d.1;
     RatingRepository.title := Movie.title d.2;
     RatingRepository.genre := Movie.genre d.2;
     RatingRepository.avgRating := RatingRepository.round3 (mean (scoresOf db d.1));
     RatingRepository.voteCount := Z.of_nat (length (scoresOf db d.1)) |}.

(** The list a promise resolves to; nothing when it rejects. *)
Definition resolved {A} (p : Promise (list A)) : list A :=
  match p with
  | Resolved l => l
  | Rejected _ => []
  end.

(** Does a string end with a slash? *)
Fixpoint endsWithSlash (s : string) : bool :=
  match s with
  | EmptyString => false
  | String c EmptyString => Ascii.eqb c "/"
  | String _ s' => endsWithSlash s'
  end.

(** The scores of the fetched ratings whose link ends in [k], in order. *)
Definition scoresFor (k : string) (allRatings : list ClientMain.RatingItem)
    : list Q :=
  ClientMain.rating <$>
  filter (fun r => ClientMain.lastSegment (ClientMain.movie r) = k) allRatings.

(** The pages among the answers, up to the first failure. *)
Fixpoint pagesBefore (answers : list ClientMain.Answer)
    : list (list ClientMain.RatingItem) :=
  match answers with
  | [] => []
  | ClientMain.TooManyRequests :: rest => pagesBefore rest
  | ClientMain.Page data :: rest => data :: pagesBefore rest
  | ClientMain.Failure :: _ => []
  end.

Fixpoint hasFailure (answers : list ClientMain.Answer) : bool :=
  match answers with
  | [] => false
  | ClientMain.Failure :: _ => true
  | _ :: rest => hasFailure rest
  end.

(** A row is rated no lower than the next. *)
Definition notBelow (x y : ClientMain.Row) : Prop :=
  (ClientMain.avgRating y <= ClientMain.avgRating x)%Q.

(** What [ratingMap] holds once the ratings [allRatings] have been read. *)
Definition Grouped (allRatings : list ClientMain.RatingItem)
    (m : ClientMain.RatingMap) : Prop :=
  NoDup m.*1 /\
  (forall r, r ∈ allRatings ->
     ClientMain.lastSegment (ClientMain.movie r) ∈ m.*1) /\
  (forall k l, (k, l) ∈ m -> l = scoresFor k allRatings /\ l <> []).

(** The three-level order between two entries, taken on the unrounded
    means of their movies. *)
Definition ranksAs (db : Database) (A B : RatingRepository.Row) : Prop :=
  tieBreak (mean (scoresOf db (RatingRepository.movieId A)))
           (mean (scoresOf db (RatingRepository.movieId B))) A B.

(** No two eligible movies agree in mean, number of votes and title. *)
Definition noFullTies `{E : RegexEngine} (db : Database)
    (genreRegex : option RegExp) (minVotes : Z) : Prop :=
  forall d1 d2 : MovieDoc,
    d1 ∈ eligible db genreRegex minVotes ->
    d2 ∈ eligible db genreRegex minVotes ->
    mean (scoresOf db d1.1) == mean (scoresOf db d2.1) ->
    length (scoresOf db d1.1) = length (scoresOf db d2.1) ->
    Movie.title d1.2 = Movie.title d2.2 ->
    d1 = d2.

(** The joined documents of the movie [k]. *)
Definition docsOf (k : ObjectId) (js : list RatingRepository.Joined)
    : list RatingRepository.Joined :=
  filter (fun j => RatingRepository.j_movie_id j = k) js.

(** What the accumulators of a group hold once the documents [js] have
    been read. *)
Record Accumulated (js : list RatingRepository.Joined)
    (a : RatingRepository.Acc) : Prop := {
  acc_count_ok :
    RatingRepository.acc_count a =
    Z.of_nat (length (docsOf (RatingRepository.acc_id a) js));
  acc_sum_ok :
    RatingRepository.acc_sum a ==
    Qsum (RatingRepository.j_rating <$> docsOf (RatingRepository.acc_id a) js);
  acc_first_ok :
    exists j, j ∈ js /\
      RatingRepository.j_movie_id j = RatingRepository.acc_id a /\
      RatingRepository.acc_title a = Movie.title (RatingRepository.j_movie j) /\
      RatingRepository.acc_genre a = Movie.genre (RatingRepository.j_movie j);
}.

(** ** Sample data *)

Module Sample.

Import MovieService.

Definition noParams : Query :=
  {| q_genre := None; q_year := None; q_page := None;
     q_limit := None; q_minVotes := None |}.

Definition withGenre (g : string) : Query :=
  {| q_genre := Some g; q_year := None; q_page := None;
     q_limit := None; q_minVotes := None |}.

Definition withGenreMinVotes (g v : string) : Query :=
  {| q_genre := Some g; q_year := None; q_page := None;
     q_limit := None; q_minVotes := Some v |}.

Definition withMinVotes (v : string) : Query :=
  {| q_genre := None; q_year := None; q_page := None;
     q_limit := None; q_minVotes := Some v |}.

Definition withLimit (l : string) : Query :=
  {| q_genre := None; q_year := None; q_page := None;
     q_limit := Some l; q_minVotes := None |}.

Definition paged (page limit : string) : Query :=
  {| q_genre := None; q_year := None; q_page := Some page;
     q_limit := Some limit; q_minVotes := None |}.

Definition film (t g : string) : Movie.t :=
  {| Movie.title := t; Movie.genre := Some g; Movie.release_year := Some 1999 |}.

Definition votes (id : ObjectId) (scores : list Q) : list Rating.t :=
  Rating.mk id <$> scores.

(** The example of the specification: M1 rated 5, 4, 5; M2 rated 3 four
    times; M3 rated 5 once.  One more rating refers to no movie. *)
Definition threeMovies : Database :=
  {| movies := list_to_map [("M1", film "Alpha" "Sci-Fi Action");
                            ("M2", film "Beta" "Action/Adventure");
                            ("M3", film "Gamma" "Drama")];
     ratings := votes "M1" [5; 4]%Q ++ votes "M2" [3; 3]%Q ++ votes "M9" [1]%Q
                ++ votes "M3" [5]%Q ++ votes "M1" [5]%Q ++ votes "M2" [3; 3]%Q |}.

(** Two movies whose means, 51/28 and 71/39, differ and both round to
    1.821; the one with the higher mean has fewer votes. *)
Definition nearTie : Database :=
  {| movies := list_to_map [("M1", film "Alpha" "Drama");
                            ("M2", film "Beta" "Drama")];
     ratings := votes "M1" (replicate 23 2 ++ replicate 5 1)%Q
                ++ votes "M2" (replicate 32 2 ++ replicate 7 1)%Q |}.

Definition now : string := "2024-01-01T00:00:00.000Z".

Definition rowM1 : RatingRepository.Row :=
  {| RatingRepository.movieId := "M1"; RatingRepository.title := "Alpha";
     RatingRepository.genre := Some "Sci-Fi Action";
     RatingRepository.avgRating := 4667 # 1000;
     RatingRepository.voteCount := 3 |}.

Definition rowM2 : RatingRepository.Row :=
  {| RatingRepository.movieId := "M2"; RatingRepository.title := "Beta";
     RatingRepository.genre := Some "Action/Adventure";
     RatingRepository.avgRating := 3000 # 1000;
     RatingRepository.voteCount := 4 |}.

(** The response to a query without parameters on [threeMovies]. *)
Definition response : TopRated :=
  {| data := [rowM1; rowM2];
     meta := {| generatedAt := now; m_limit := 10; m_minVotes := 3;
                m_genre := None |} |}.

(** The response on [threeMovies] when the limit is 1. *)
Definition responseTop1 : TopRated :=
  {| data := [rowM1];
     meta := {| generatedAt := now; m_limit := 1; m_minVotes := 3;
                m_genre := None |} |}.

End Sample.

(** Fetched ratings of three movies, the answers of the movie endpoint,
    and the bars they give without a selected genre. *)
Module ClientSample.

Definition item (link : string) (score : Q) : ClientMain.RatingItem :=
  {| ClientMain.movie := link; ClientMain.rating := score |}.

Definition allRatings : list ClientMain.RatingItem :=
  [ item "/api/v1/movies/b" 5; item "/api/v1/movies/7" 3;
    item "/api/v1/movies/b" 4; item "/api/v1/movies/a" 2;
    item "/api/v1/movies/b" 5; item "/api/v1/movies/7" 3;
    item "/api/v1/movies/7" 3 ]%Q.

Definition movieData (id : string) : option ClientMain.MovieData :=
  Some {| ClientMain.md_genre := Some "Drama";
          ClientMain.md_title := if String.eqb id "7" then None else Some id |}.

Definition barB : ClientMain.Row :=
  {| ClientMain.movieId := "b"; ClientMain.avgRating := 14 # 3;
     ClientMain.count := 3; ClientMain.genre := "Drama";
     ClientMain.title := "b" |}.

Definition bar7 : ClientMain.Row :=
  {| ClientMain.movieId := "7"; ClientMain.avgRating := 9 # 3;
     ClientMain.count := 3; ClientMain.genre := "Drama";
     ClientMain.title := "Unknown" |}.

End ClientSample.

(** * Properties *)

Example trim_samples :
  Js.trim "  Sci-Fi Action " = "Sci-Fi Action" /\ Js.trim " a b " = "a b" /\
  Js.trim "   " = "" /\ Js.trim "" = "" /\ Js.trim "drama" = "drama".
Proof. repeat split; reflexivity. Qed.

Example parseInt_samples :
  Js.parseInt "500" 10 = Some 500 /\ Js.parseInt "  -5" 10 = Some (-5) /\
  Js.parseInt "12abc" 10 = Some 12 /\ Js.parseInt "abc" 10 = None /\
  Js.parseInt "0x1f" 0 = Some 31 /\ Js.parseInt "0x1f" 10 = Some 0 /\
  Js.parseInt "" 10 = None /\ Js.parseInt "-" 10 = None.
Proof. repeat split; reflexivity. Qed.

Import RatingRepository MovieService.

(** ** Input normalisation *)

Lemma orElse_clamped (lo hi d : Z) (n : option Z) :
  lo <= d <= hi ->
  lo <= Z.min hi (Z.max lo (Js.orElse n d)) <= hi.
Proof. intros Hd. destruct n as [[|p|p]|]; simpl; lia. Qed.

Lemma normalise_cases (lo hi d : Z) (n : option Z) :
  lo <= d <= hi ->
  Z.min hi (Z.max lo (Js.orElse n d)) =
    match n with
    | None | Some 0 => d
    | Some n => clamp lo hi n
    end.
Proof. intros Hd. unfold clamp. destruct n as [[|p|p]|]; simpl; lia. Qed.

(** C1, as the code has it.  The effective [minVotes] is 3 when the
    parameter is missing, when [parseInt] finds no number in it, and when the
    number found is zero; otherwise it is that number clamped to the range
    from 1 to 100.  So "0" and "abc" give the default 3, "500" gives the cap
    100, and "-5" gives the lower bound 1. *)
Theorem minVotes_normalised :
  (forall query : Query,
     getTopRated_minVotes query =
       match q_minVotes query with
       | None => 3
       | Some s =>
           match Js.parseInt s 10 with
           | None | Some 0 => 3
           | Some n => clamp 1 100 n
           end
       end /\
     1 <= getTopRated_minVotes query <= 100) /\
  getTopRated_minVotes (Sample.withMinVotes "0") = 3 /\
  getTopRated_minVotes (Sample.withMinVotes "abc") = 3 /\
  getTopRated_minVotes (Sample.withMinVotes "500") = 100 /\
  getTopRated_minVotes (Sample.withMinVotes "-5") = 1.
Proof.
  split; [|repeat split; reflexivity].
  intros query. unfold getTopRated_minVotes. split.
  - rewrite normalise_cases by lia.
    destruct (q_minVotes query) as [s|]; reflexivity.
  - apply orElse_clamped. lia.
Qed.

(** C1 as stated fails: the input "-5" does not yield the default 3. *)
Lemma minVotes_negative_is_not_default :
  Js.parseInt "-5" 10 = Some (-5) /\
  getTopRated_minVotes (Sample.withMinVotes "-5") <> 3.
Proof. split; [reflexivity | discriminate]. Qed.

(** The effective [limit] of the top-rated query. *)
Lemma limit_normalised (query : Query) :
  getTopRated_limit query =
    match q_limit query with
    | None => 10
    | Some s =>
        match Js.parseInt s 10 with
        | None | Some 0 => 10
        | Some n => clamp 1 50 n
        end
    end /\
  1 <= getTopRated_limit query <= 50.
Proof.
  unfold getTopRated_limit. split.
  - rewrite normalise_cases by lia.
    destruct (q_limit query) as [s|]; reflexivity.
  - apply orElse_clamped. lia.
Qed.

(** C5 as stated fails: the input "0" is numeric and parses to 0, whose
    clamp to the range from 1 to 50 is 1, but the effective limit is 10. *)
Lemma limit_zero_is_default :
  Js.parseInt "0" 10 = Some 0 /\
  getTopRated_limit (Sample.withLimit "0") = 10 /\
  getTopRated_limit (Sample.withLimit "0") <> clamp 1 50 0.
Proof. repeat split; discriminate. Qed.

(** ** The genre parameter *)

Lemma trimStart_blank (s : string) : blank s = true -> Js.trimStart s = "".
Proof.
  induction s as [|c s IH]; simpl; [done|].
  destruct (Js.isWhiteSpace c); simpl; [exact IH | discriminate].
Qed.

Lemma trim_blank (s : string) : blank s = true -> Js.trim s = "".
Proof. intros Hs. unfold Js.trim. by rewrite trimStart_blank. Qed.

(** C7.  A genre parameter that is empty or holds white space only gives
    the response of the same query without a genre parameter: the same
    entries in the same order, and the same echoed values. *)
Theorem blank_genre_is_no_filter `{E : RegexEngine}
    (now : string) (db : Database) (query : Query) (s : string) :
  q_genre query = Some s ->
  blank s = true ->
  getTopRated now db query =
  getTopRated now db {| q_genre := None;
                        q_year := q_year query;
                        q_page := q_page query;
                        q_limit := q_limit query;
                        q_minVotes := q_minVotes query |}.
Proof.
  intros Hg Hs.
  unfold getTopRated, getTopRated_genreRegex, getTopRated_genre,
    getTopRated_minVotes, getTopRated_limit.
  rewrite Hg. simpl. by rewrite (trim_blank s Hs).
Qed.

Lemma blank_genre_is_no_filter_witness :
  @getTopRated patternEngine "2024-01-01T00:00:00.000Z" Sample.threeMovies
    (Sample.withGenre "   ") =
  @getTopRated patternEngine "2024-01-01T00:00:00.000Z" Sample.threeMovies
    Sample.noParams.
Proof.
  exact (@blank_genre_is_no_filter patternEngine _ Sample.threeMovies
           (Sample.withGenre "   ") "   " eq_refl eq_refl).
Defined.

(** ** The listing *)











(** A page beyond 2^53: the page is the nearest Number, and the offset is
    the rounded product. *)
Example getAllMovies_large_page :
  getAllMovies_page (Sample.paged "9007199254740993" "3") =
    Js.Finite 9007199254740992 /\
  getAllMovies_skip (Sample.paged "9007199254740993" "3") =
    Js.Finite 27021597764222972 /\
  getAllMovies_limit (Sample.paged "1" "-5") = Js.Finite (-5) /\
  getAllMovies_limit (Sample.paged "1" "500") = Js.Finite 100 /\
  getAllMovies_limit (Sample.paged "1" "0") = Js.Finite 10 /\
  getAllMovies_page (Sample.paged "abc" "3") = Js.Finite 1.
Proof. repeat split; by vm_compute. Qed.

(** On integers around the powers of two where the spacing of the Numbers
    changes, and beyond the largest Number, [Js.toNumber] rounds as the
    binary64 format of the Standard Library does. *)
Example toNumber_is_binary64 :
  Forall (fun z => Js.toNumber z = binary64 z /\ Js.toNumber (- z) = binary64 (- z))
    [0; 1; 2 ^ 53 - 1; 2 ^ 53; 2 ^ 53 + 1; 2 ^ 53 + 2; 2 ^ 53 + 3;
     2 ^ 54 + 1; 2 ^ 54 + 2; 2 ^ 54 + 3; 2 ^ 54 + 6; 2 ^ 60 + 2 ^ 7;
     2 ^ 60 + 2 ^ 7 + 1; 2 ^ 60 + 3 * 2 ^ 7; 27021597764222973; 10 ^ 30;
     10 ^ 308; 2 ^ 1024 - 2 ^ 970 - 1; 2 ^ 1024 - 2 ^ 970; 2 ^ 1024; 10 ^ 400].
Proof. repeat (apply Forall_cons; split; [by vm_compute|]). apply Forall_nil_2. Qed.

(** So does the page count: for totals up to 2^53 the ceiling of the exact
    quotient is the ceiling of the quotient that binary64 rounds. *)
Example ceilOfQuotient_is_binary64 :
  Forall (fun '(total, n) =>
            Js.ceilOfQuotient total (Js.Finite n) = binary64_ceilOfQuotient total n)
    [(0, 10); (1, 10); (10, 10); (11, 10); (3, 2); (1, 3); (2, 3); (100, 7);
     (123456789, 10); (2 ^ 52 + 1, 2); (2 ^ 53 - 1, 1); (2 ^ 53 - 1, 2);
     (2 ^ 53 - 1, 3); (2 ^ 53 - 2, 7); (2 ^ 53 - 3, 97); (2 ^ 53 - 1, 100);
     (2 ^ 53 - 1, 2 ^ 53 - 2); (5, -3); (1, -100); (0, -5); (7, 2 ^ 60);
     (1, 2 ^ 1000)].
Proof. repeat (apply Forall_cons; split; [by vm_compute|]). apply Forall_nil_2. Qed.

(** ** Fetching one movie *)

(** C10.  When the repository finds no document for an id, whether it
    answers [null] or [undefined], [getMovie] resolves to [null]; it
    resolves to a document exactly when the repository did, never to
    [undefined], and rejects only when the repository call rejected. *)
Theorem getMovie_null_when_absent `{E : RegexEngine}
    (repo : MovieRepository) (id : ObjectId) :
  (repo_getMovie repo id = Resolved Null \/
   repo_getMovie repo id = Resolved Undefined ->
   getMovie repo id = Resolved Null) /\
  (forall v, getMovie repo id = Resolved v ->
     (v = Null /\ (repo_getMovie repo id = Resolved Null \/
                   repo_getMovie repo id = Resolved Undefined)) \/
     (exists d, v = Value d /\ repo_getMovie repo id = Resolved (Value d))) /\
  (forall e, getMovie repo id = Rejected e -> repo_getMovie repo id = Rejected e).
Proof.
  unfold getMovie. split; [| split].
  - intros [-> | ->]; reflexivity.
  - intros v. destruct (repo_getMovie repo id) as [[| |d]|e]; simpl;
      intros Hv; inversion Hv; subst; eauto.
  - intros e. destruct (repo_getMovie repo id) as [m|e']; simpl;
      intros He; inversion He; reflexivity.
Qed.

Lemma getMovie_null_when_absent_witness :
  @getMovie patternEngine (mongoMovieRepository Sample.threeMovies) "M9" =
  Resolved Null.
Proof.
  apply (proj1 (@getMovie_null_when_absent patternEngine
                  (mongoMovieRepository Sample.threeMovies) "M9")).
  left. reflexivity.
Defined.

(** ** The pipeline, stage by stage *)

(** *** Sums and means *)

Lemma Qsum_snoc (l : list Q) (x : Q) : Qsum (l ++ [x]) == Qsum l + x.
Proof.
  induction l as [|y l IH]; simpl.
  - ring.
  - rewrite IH. ring.
Qed.

Lemma roundHalfEven_comp (p q : Q) : p == q -> roundHalfEven p = roundHalfEven q.
Proof.
  intros Hpq. unfold roundHalfEven.
  rewrite (Qfloor_comp _ _ Hpq).
  assert (p - inject_Z (Qfloor q) == q - inject_Z (Qfloor q)) as Hd
    by (rewrite Hpq; reflexivity).
  by rewrite (Qcompare_comp _ _ Hd (1 # 2) (1 # 2) (Qeq_refl _)).
Qed.

Lemma round3_comp (p q : Q) : p == q -> round3 p = round3 q.
Proof.
  intros Hpq. unfold round3. f_equal.
  apply roundHalfEven_comp. by rewrite Hpq.
Qed.

(** *** [$lookup] and [$unwind] *)

Lemma lookup_unwind_app ms (l1 l2 : list Rating.t) :
  lookup_unwind ms (l1 ++ l2) = lookup_unwind ms l1 ++ lookup_unwind ms l2.
Proof. apply omap_app. Qed.

Lemma lookup_unwind_dangling (ms : gmap ObjectId Movie.t) r (l : list Rating.t) :
  ms !! Rating.movie r = None ->
  lookup_unwind ms (r :: l) = lookup_unwind ms l.
Proof. intros Hr. unfold lookup_unwind. simpl. by rewrite Hr. Qed.

Lemma lookup_unwind_resolved (ms : gmap ObjectId Movie.t) r m (l : list Rating.t) :
  ms !! Rating.movie r = Some m ->
  lookup_unwind ms (r :: l) =
  {| j_rating := Rating.rating r; j_movie_id := Rating.movie r; j_movie := m |}
    :: lookup_unwind ms l.
Proof. intros Hr. unfold lookup_unwind. simpl. by rewrite Hr. Qed.

(** Every joined document carries the movie its rating referred to. *)
Lemma lookup_unwind_movie (ms : gmap ObjectId Movie.t) (rs : list Rating.t) j :
  j ∈ lookup_unwind ms rs -> ms !! j_movie_id j = Some (j_movie j).
Proof.
  unfold lookup_unwind. rewrite list_elem_of_omap.
  intros (r & _ & Hj).
  destruct (ms !! Rating.movie r) as [m|] eqn:Hm; simpl in Hj; [|done].
  by inversion Hj; subst.
Qed.

(** *** [$group] *)

Lemma accumulate_keys_old (accs : list Acc) (j : Joined) :
  j_movie_id j ∈ acc_id <$> accs ->
  acc_id <$> accumulate accs j = acc_id <$> accs.
Proof.
  induction accs as [|a accs IH]; intros Hin.
  - by apply elem_of_nil in Hin.
  - cbn [accumulate]. destruct (decide (acc_id a = j_movie_id j)) as [Heq|Hne].
    + done.
    + rewrite !fmap_cons, IH; [done|].
      rewrite fmap_cons in Hin. apply elem_of_cons in Hin as [?|?]; [congruence | done].
Qed.

Lemma accumulate_keys_new (accs : list Acc) (j : Joined) :
  j_movie_id j ∉ acc_id <$> accs ->
  acc_id <$> accumulate accs j = (acc_id <$> accs) ++ [j_movie_id j].
Proof.
  induction accs as [|a accs IH]; intros Hnin.
  - done.
  - cbn [accumulate]. rewrite fmap_cons in Hnin.
    apply not_elem_of_cons in Hnin as [Hne Hnin].
    rewrite decide_False by congruence.
    by rewrite !fmap_cons, IH.
Qed.

Lemma docsOf_snoc (k : ObjectId) (js : list Joined) (j : Joined) :
  docsOf k (js ++ [j]) =
    docsOf k js ++ (if decide (j_movie_id j = k) then [j] else []).
Proof.
  unfold docsOf. by rewrite filter_app.
Qed.

Lemma Accumulated_other (js : list Joined) (j : Joined) (a : Acc) :
  acc_id a <> j_movie_id j -> Accumulated js a -> Accumulated (js ++ [j]) a.
Proof.
  intros Hne [Hc Hs (j0 & Hin & Hj0)].
  split; rewrite ?docsOf_snoc, ?decide_False, ?app_nil_r by congruence; try done.
  exists j0. split; [|done]. apply elem_of_app. by left.
Qed.

Lemma Accumulated_add (js : list Joined) (j : Joined) (a : Acc) :
  acc_id a = j_movie_id j -> Accumulated js a -> Accumulated (js ++ [j]) (acc_add a j).
Proof.
  intros Heq [Hc Hs (j0 & Hin & Hj0)].
  split; simpl; rewrite ?docsOf_snoc, ?decide_True by congruence.
  - rewrite Hc, length_app. simpl. lia.
  - rewrite fmap_app. change (j_rating <$> [j]) with [j_rating j].
    rewrite Qsum_snoc, Hs. reflexivity.
  - exists j0. split; [|done]. apply elem_of_app. by left.
Qed.

Lemma Accumulated_init (js : list Joined) (j : Joined) :
  docsOf (j_movie_id j) js = [] -> Accumulated (js ++ [j]) (acc_init j).
Proof.
  intros Hnone.
  split; simpl; rewrite ?docsOf_snoc, ?decide_True, ?Hnone by done; simpl.
  - done.
  - ring.
  - exists j. split; [|done]. apply elem_of_app. right. apply list_elem_of_here.
Qed.

Lemma accumulate_Accumulated (js : list Joined) (accs : list Acc) (j : Joined) :
  NoDup (acc_id <$> accs) ->
  Forall (Accumulated js) accs ->
  (j_movie_id j ∉ acc_id <$> accs -> docsOf (j_movie_id j) js = []) ->
  Forall (Accumulated (js ++ [j])) (accumulate accs j).
Proof.
  induction accs as [|a accs IH]; intros Hnd Hall Hnew.
  - constructor; [|constructor].
    apply Accumulated_init, Hnew, not_elem_of_nil.
  - rewrite fmap_cons in Hnd. apply NoDup_cons in Hnd as [Ha Hnd].
    apply Forall_cons in Hall as [Hacc Hall].
    cbn [accumulate]. destruct (decide (acc_id a = j_movie_id j)) as [Heq|Hne].
    + constructor; [by apply Accumulated_add|].
      apply Forall_forall. intros b Hb.
      apply Accumulated_other; [|by eapply Forall_forall in Hall].
      intros Hbj. apply Ha. rewrite Heq, <- Hbj. by apply list_elem_of_fmap_2.
    + constructor; [by apply Accumulated_other|].
      apply IH; [done..|].
      intros Hnin. apply Hnew. rewrite fmap_cons.
      apply not_elem_of_cons. split; [congruence | done].
Qed.

(** The state of the accumulators after [$group] has read all of [js]: one
    accumulator per key, each holding the count and the sum of its
    documents. *)
Lemma foldl_accumulate (js : list Joined) :
  NoDup (acc_id <$> foldl accumulate [] js) /\
  (forall j, j ∈ js -> j_movie_id j ∈ acc_id <$> foldl accumulate [] js) /\
  Forall (Accumulated js) (foldl accumulate [] js).
Proof.
  induction js as [|j js IH] using rev_ind.
  - repeat split; [constructor | | constructor].
    intros j Hj. by apply elem_of_nil in Hj.
  - destruct IH as (Hnd & Hcover & Hall). rewrite foldl_snoc.
    set (accs := foldl accumulate [] js) in *.
    destruct (decide (j_movie_id j ∈ acc_id <$> accs)) as [Hin|Hnin].
    + repeat split.
      * by rewrite accumulate_keys_old.
      * rewrite accumulate_keys_old by done.
        intros j' [Hj'|Hj']%elem_of_app; [by apply Hcover|].
        apply list_elem_of_singleton in Hj'. by subst.
      * by apply accumulate_Accumulated.
    + assert (docsOf (j_movie_id j) js = []) as Hnone.
      { apply elem_of_nil_inv. intros j' [Hk Hj']%list_elem_of_filter.
        apply Hnin. rewrite <- Hk. by apply Hcover. }
      repeat split.
      * rewrite accumulate_keys_new by done.
        apply NoDup_app. repeat split; [done | | apply NoDup_singleton].
        intros k Hk ->%list_elem_of_singleton. done.
      * rewrite accumulate_keys_new by done.
        intros j' [Hj'|Hj']%elem_of_app; apply elem_of_app.
        -- left. by apply Hcover.
        -- right. apply list_elem_of_singleton in Hj'. subst.
           apply list_elem_of_here.
      * by apply accumulate_Accumulated.
Qed.

Lemma group_ids (js : list Joined) :
  _id <$> group js = acc_id <$> foldl accumulate [] js.
Proof. unfold group. by rewrite <- list_fmap_compose. Qed.

Lemma group_NoDup (js : list Joined) : NoDup (_id <$> group js).
Proof. rewrite group_ids. apply foldl_accumulate. Qed.

(** What [$group] computes for each key, in terms of the documents it read. *)
Lemma group_spec (js : list Joined) (g : Group) :
  g ∈ group js ->
  g_movieId g = _id g /\
  g_voteCount g = Z.of_nat (length (docsOf (_id g) js)) /\
  g_avgRating g == mean (j_rating <$> docsOf (_id g) js) /\
  exists j, j ∈ js /\ j_movie_id j = _id g /\
            g_title g = Movie.title (j_movie j) /\
            g_genre g = Movie.genre (j_movie j).
Proof.
  unfold group. intros (a & -> & Ha)%list_elem_of_fmap.
  destruct (foldl_accumulate js) as (_ & _ & Hall).
  eapply Forall_forall in Hall as [Hc Hs Hfirst]; [|exact Ha].
  cbn [finalize _id g_movieId g_voteCount g_avgRating g_title g_genre].
  repeat split; [done| |done].
  unfold mean. rewrite length_fmap, <- Hc, Hs. reflexivity.
Qed.

Lemma submseteq_NoDup {A} (l1 l2 : list A) : l1 ⊆+ l2 -> NoDup l2 -> NoDup l1.
Proof.
  intros [k Hk]%submseteq_Permutation Hnd.
  rewrite Hk in Hnd. by apply NoDup_app in Hnd as (? & _ & _).
Qed.

(** *** The joined documents and the collections *)

Section Joined.
Context `{E : RegexEngine}.

Lemma filter_all {A} (P : A -> Prop) `{!forall x, Decision (P x)} (l : list A) :
  (forall x, x ∈ l -> P x) -> filter P l = l.
Proof.
  induction l as [|x l IH]; intros Hall; [done|].
  rewrite filter_cons_True by (apply Hall, list_elem_of_here).
  f_equal. apply IH. intros y Hy. by apply Hall, list_elem_of_further.
Qed.

Lemma match_genre_passes (genreRegex : option RegExp) (js : list Joined) :
  match_genre genreRegex js =
  filter (fun j => passesGenre genreRegex (j_movie j)) js.
Proof.
  destruct genreRegex as [re|]; simpl; [done|].
  symmetry. by apply filter_all.
Qed.

Lemma joined_elem (ms : gmap ObjectId Movie.t) (rs : list Rating.t)
    (genreRegex : option RegExp) (j : Joined) :
  j ∈ match_genre genreRegex (lookup_unwind ms rs) ->
  ms !! j_movie_id j = Some (j_movie j) /\
  passesGenre genreRegex (j_movie j) = true.
Proof.
  rewrite match_genre_passes.
  intros [Hp Hj]%list_elem_of_filter.
  split; [by eapply lookup_unwind_movie | by apply Is_true_true].
Qed.

(** The documents of a movie that passes the filter carry the scores of all
    the ratings that refer to it, in collection order. *)
Lemma joined_scores (db : Database) (genreRegex : option RegExp)
    (k : ObjectId) (m : Movie.t) :
  movies db !! k = Some m ->
  passesGenre genreRegex m = true ->
  j_rating <$> docsOf k (match_genre genreRegex
                           (lookup_unwind (movies db) (ratings db)))
  = scoresOf db k.
Proof.
  intros Hm Hp. rewrite match_genre_passes. unfold docsOf, scoresOf.
  induction (ratings db) as [|r rs IH]; [done|].
  destruct (movies db !! Rating.movie r) as [m'|] eqn:Hr.
  - rewrite (lookup_unwind_resolved _ _ _ _ Hr).
    destruct (decide (Rating.movie r = k)) as [Hk|Hk].
    + assert (m' = m) as -> by congruence.
      rewrite filter_cons_True by (by apply Is_true_true).
      rewrite !filter_cons_True by done.
      rewrite !fmap_cons, IH. done.
    + rewrite (filter_cons_False _ r) by done.
      rewrite <- IH. f_equal.
      rewrite (filter_cons (fun j => passesGenre genreRegex (j_movie j))).
      case_decide; [|done].
      by rewrite filter_cons_False.
  - rewrite (lookup_unwind_dangling _ _ _ Hr).
    rewrite filter_cons_False by congruence. exact IH.
Qed.

(** *** The documents that reach [$project] *)

Lemma ranked_resolves (db : Database) (genreRegex : option RegExp)
    (minVotes limit : Z) :
  0 < limit ->
  ranked db genreRegex minVotes limit =
  Resolved (take (Z.to_nat limit)
              (sort (match_votes minVotes
                       (group (match_genre genreRegex
                                 (lookup_unwind (movies db) (ratings db))))))).
Proof.
  intros Hl. unfold ranked, limit_stage.
  by rewrite (proj2 (Z.ltb_lt 0 limit) Hl).
Qed.

Lemma ranked_Resolved (db : Database) (genreRegex : option RegExp)
    (minVotes limit : Z) (gs : list Group) :
  ranked db genreRegex minVotes limit = Resolved gs ->
  0 < limit /\
  gs = take (Z.to_nat limit)
         (sort (match_votes minVotes
                  (group (match_genre genreRegex
                            (lookup_unwind (movies db) (ratings db)))))).
Proof.
  unfold ranked, limit_stage. destruct (0 <? limit) eqn:Hl; [|done].
  intros [= <-]. split; [by apply Z.ltb_lt | done].
Qed.

Lemma ranked_submseteq (db : Database) (genreRegex : option RegExp)
    (minVotes limit : Z) (gs : list Group) :
  ranked db genreRegex minVotes limit = Resolved gs ->
  gs ⊆+ match_votes minVotes
          (group (match_genre genreRegex
                    (lookup_unwind (movies db) (ratings db)))).
Proof.
  intros [_ ->]%ranked_Resolved.
  etrans; [apply submseteq_take|].
  apply Permutation_submseteq, merge_sort_Permutation.
Qed.

(** Each ranked document, in terms of the two collections. *)
Lemma ranked_elem (db : Database) (genreRegex : option RegExp)
    (minVotes limit : Z) (gs : list Group) (g : Group) :
  ranked db genreRegex minVotes limit = Resolved gs ->
  g ∈ gs ->
  exists m : Movie.t,
    movies db !! _id g = Some m /\
    passesGenre genreRegex m = true /\
    g_movieId g = _id g /\
    g_title g = Movie.title m /\
    g_genre g = Movie.genre m /\
    g_voteCount g = Z.of_nat (length (scoresOf db (_id g))) /\
    g_avgRating g == mean (scoresOf db (_id g)) /\
    minVotes <= g_voteCount g.
Proof.
  intros Hgs%ranked_submseteq Hg.
  eapply elem_of_submseteq in Hg; [|exact Hgs].
  apply list_elem_of_filter in Hg as [Hv Hg].
  apply group_spec in Hg as (Hid & Hc & Havg & j & Hj & Hjid & Ht & Hgen).
  apply joined_elem in Hj as [Hm Hp].
  exists (j_movie j). rewrite Hjid in Hm.
  rewrite <- (length_fmap j_rating) in Hc.
  rewrite (joined_scores db genreRegex (_id g) (j_movie j) Hm Hp) in Hc, Havg.
  repeat split; done.
Qed.

Lemma ranked_NoDup (db : Database) (genreRegex : option RegExp)
    (minVotes limit : Z) (gs : list Group) :
  ranked db genreRegex minVotes limit = Resolved gs ->
  NoDup (_id <$> gs).
Proof.
  intros Hgs%ranked_submseteq.
  eapply submseteq_NoDup; [by apply fmap_submseteq|].
  eapply sublist_NoDup; [apply group_NoDup|].
  apply fmap_sublist, sublist_filter.
Qed.

End Joined.

(** *** [$sort] *)

Lemma sortLeb_spec (a b : Group) :
  sortLeb a b = true <->
  (g_avgRating b < g_avgRating a)%Q \/
  (g_avgRating a == g_avgRating b /\ g_voteCount b < g_voteCount a) \/
  (g_avgRating a == g_avgRating b /\ g_voteCount a = g_voteCount b /\
   String.leb (g_title a) (g_title b) = true).
Proof.
  unfold sortLeb.
  assert (g_avgRating a == g_avgRating b <->
          Qcompare (g_avgRating b) (g_avgRating a) = Eq) as Heq.
  { rewrite <- Qeq_alt. split; intros H; by symmetry. }
  rewrite Heq, Qlt_alt.
  destruct (Qcompare (g_avgRating b) (g_avgRating a)).
  - destruct (Z.compare_spec (g_voteCount b) (g_voteCount a)) as [Hz|Hz|Hz].
    + split; [by auto|]. intros [?|[[_ ?]|(_ & _ & ?)]]; [done|lia|done].
    + split; [by auto|]. done.
    + split; [done|]. intros [?|[[_ ?]|(_ & ? & _)]]; [done|lia|lia].
  - split; [by auto | done].
  - split; [done|]. intros [?|[[? _]|[? _]]]; done.
Qed.

Global Instance sortOrder_total : Total sortOrder.
Proof.
  intros a b. unfold sortOrder, sortLeb.
  rewrite <- (Qcompare_antisym (g_avgRating b) (g_avgRating a)).
  rewrite (Z.compare_antisym (g_voteCount b) (g_voteCount a)).
  destruct (Qcompare (g_avgRating b) (g_avgRating a)); simpl; auto.
  destruct (Z.compare (g_voteCount b) (g_voteCount a)); simpl; auto.
  apply String.leb_total.
Qed.

Lemma Sorted_adjacent {A} (R : relation A) (l : list A) (i : nat) (a b : A) :
  Sorted R l -> l !! i = Some a -> l !! S i = Some b -> R a b.
Proof.
  intros Hs. revert i. induction Hs as [|x l Hs IH Hhd]; intros i Ha Hb; [done|].
  destruct i as [|i].
  - simpl in Ha, Hb. injection Ha as ->.
    destruct Hhd as [|y l Hxy]; [done|]. simpl in Hb. by injection Hb as ->.
  - by apply (IH i).
Qed.

Lemma Sorted_take {A} (R : relation A) (l : list A) (n : nat) :
  Sorted R l -> Sorted R (take n l).
Proof.
  intros Hs. revert n. induction Hs as [|x l Hs IH Hhd]; intros [|n]; simpl;
    try by constructor.
  constructor; [apply IH|].
  destruct Hhd as [|y l Hxy]; destruct n; simpl; by constructor.
Qed.

Lemma StronglySorted_fmap_strong {A B} (R : relation A) (R' : relation B)
    (f : A -> B) (l : list A) :
  (forall x y, x ∈ l -> y ∈ l -> R x y -> R' (f x) (f y)) ->
  StronglySorted R l -> StronglySorted R' (f <$> l).
Proof.
  induction l as [|x l IH]; intros Hf Hs; [constructor|].
  apply StronglySorted_cons in Hs as [Hx Hs]. rewrite fmap_cons.
  apply StronglySorted_cons. split.
  - apply Forall_fmap, Forall_forall. intros y Hy. simpl.
    apply Hf; [apply list_elem_of_here | by apply list_elem_of_further|].
    by eapply Forall_forall in Hx.
  - apply IH; [|done]. intros y z Hy Hz.
    apply Hf; by apply list_elem_of_further.
Qed.

(** *** [$round] *)

Lemma roundHalfEven_bounds (q : Q) :
  Qfloor q <= roundHalfEven q <= Qfloor q + 1.
Proof.
  unfold roundHalfEven.
  destruct (Qcompare _ _); [destruct (Z.even _)| |]; lia.
Qed.

Lemma Qcompare_chain (d1 d2 h : Q) :
  (d1 <= d2)%Q ->
  match Qcompare d1 h, Qcompare d2 h with
  | Eq, Lt | Gt, Lt | Gt, Eq => False
  | _, _ => True
  end.
Proof.
  intros Hd.
  destruct (Qcompare d1 h) eqn:H1; destruct (Qcompare d2 h) eqn:H2;
    try exact I; apply Qle_not_lt in Hd; apply Hd.
  - apply Qeq_alt in H1. apply Qlt_alt in H2. by rewrite H1.
  - apply Qgt_alt in H1. apply Qeq_alt in H2. by rewrite H2.
  - apply Qgt_alt in H1. apply Qlt_alt in H2. by apply Qlt_trans with h.
Qed.

Lemma roundHalfEven_mono (p q : Q) :
  (p <= q)%Q -> roundHalfEven p <= roundHalfEven q.
Proof.
  intros Hpq. pose proof (Qfloor_resp_le _ _ Hpq) as Hf.
  destruct (decide (Qfloor p = Qfloor q)) as [Heq|Hne].
  - unfold roundHalfEven. rewrite Heq.
    assert (p - inject_Z (Qfloor q) <= q - inject_Z (Qfloor q))%Q as Hd.
    { unfold Qminus. apply Qplus_le_compat; [done | apply Qle_refl]. }
    pose proof (Qcompare_chain _ _ (1 # 2) Hd) as Hc.
    destruct (Qcompare (p - inject_Z (Qfloor q)) (1 # 2));
      destruct (Qcompare (q - inject_Z (Qfloor q)) (1 # 2));
      try done; try destruct (Z.even (Qfloor q)); lia.
  - pose proof (roundHalfEven_bounds p). pose proof (roundHalfEven_bounds q).
    lia.
Qed.

Lemma round3_mono (p q : Q) : (p <= q)%Q -> (round3 p <= round3 q)%Q.
Proof.
  intros Hpq. unfold round3, Qle. simpl.
  apply Z.mul_le_mono_nonneg_r; [lia|].
  apply roundHalfEven_mono. apply Qmult_le_compat_r; [done | by compute].
Qed.

(** ** The top-rated query *)

Section TopRated.
Context `{E : RegexEngine}.

(** A resolved response comes from a compiled (or absent) filter and from
    the ranked documents for the effective [minVotes] and [limit]. *)
Lemma getTopRated_Resolved (now : string) (db : Database) (query : Query)
    (resp : TopRated) :
  getTopRated now db query = Resolved resp ->
  exists (genreRegex : option RegExp) (gs : list Group),
    getTopRated_genreRegex query = Resolved genreRegex /\
    ranked db genreRegex (getTopRated_minVotes query) (getTopRated_limit query)
      = Resolved gs /\
    data resp = entry <$> (project <$> gs).
Proof.
  unfold getTopRated, getTopRatedAggregates.
  destruct (getTopRated_genreRegex query) as [re|e]; simpl; [|done].
  destruct (ranked db re _ _) as [gs|e] eqn:Hgs; simpl; [|done].
  intros [= <-]. by exists re, gs.
Qed.

(** The query resolves whenever its genre compiles; in particular when it
    has no genre, or a blank one. *)
Lemma getTopRated_resolves (now : string) (db : Database) (query : Query)
    (genreRegex : option RegExp) :
  getTopRated_genreRegex query = Resolved genreRegex ->
  exists resp, getTopRated now db query = Resolved resp.
Proof.
  intros Hre. unfold getTopRated, getTopRatedAggregates. rewrite Hre. simpl.
  rewrite ranked_resolves by (pose proof (limit_normalised query); lia).
  simpl. eauto.
Qed.

Lemma entry_project_lookup (gs : list Group) (i : nat) (A : Row) :
  (entry <$> (project <$> gs)) !! i = Some A ->
  exists g, gs !! i = Some g /\
    movieId A = g_movieId g /\ title A = g_title g /\ genre A = g_genre g /\
    avgRating A = round3 (g_avgRating g) /\ voteCount A = g_voteCount g.
Proof.
  rewrite !list_lookup_fmap.
  destruct (gs !! i) as [g|]; simpl; [|done].
  intros [= <-]. by exists g.
Qed.

End TopRated.

Section TopRatedEntries.
Context `{E : RegexEngine}.

Lemma getTopRated_sorted (db : Database) (genreRegex : option RegExp)
    (minVotes limit : Z) (gs : list Group) :
  ranked db genreRegex minVotes limit = Resolved gs -> Sorted sortOrder gs.
Proof.
  intros [_ ->]%ranked_Resolved. apply Sorted_take, Sorted_merge_sort, _.
Qed.

(** C3, as the code has it.  In every resolved response, an entry [A] and
    the entry [B] right after it are in the three-level order taken on the
    unrounded means of their movies' scores: the mean of [A] is greater, or
    the means are equal and [A] has more votes, or both are equal and the
    title of [A] is not after the title of [B], code unit by code unit.  On
    the rounded [avgRating] values of the entries, only [A.avgRating >=
    B.avgRating] follows. *)
Theorem adjacent_entries_ordered (now : string) (db : Database) (query : Query)
    (resp : TopRated) (i : nat) (A B : Row) :
  getTopRated now db query = Resolved resp ->
  data resp !! i = Some A ->
  data resp !! S i = Some B ->
  tieBreak (mean (scoresOf db (movieId A))) (mean (scoresOf db (movieId B))) A B /\
  (avgRating B <= avgRating A)%Q.
Proof.
  intros (re & gs & _ & Hgs & Hdata)%getTopRated_Resolved HA HB.
  rewrite Hdata in HA, HB.
  apply entry_project_lookup in HA as (ga & Hga & HAid & HAt & _ & HAavg & HAv).
  apply entry_project_lookup in HB as (gb & Hgb & HBid & HBt & _ & HBavg & HBv).
  pose proof (Sorted_adjacent _ _ _ _ _ (getTopRated_sorted _ _ _ _ _ Hgs) Hga Hgb)
    as Hord.
  apply sortLeb_spec in Hord.
  destruct (ranked_elem _ _ _ _ _ ga Hgs (list_elem_of_lookup_2 _ _ _ Hga))
    as (_ & _ & _ & Hida & _ & _ & _ & Hma & _).
  destruct (ranked_elem _ _ _ _ _ gb Hgs (list_elem_of_lookup_2 _ _ _ Hgb))
    as (_ & _ & _ & Hidb & _ & _ & _ & Hmb & _).
  unfold tieBreak.
  rewrite HAid, HBid, Hida, Hidb, HAt, HBt, HAv, HBv, HAavg, HBavg, <- Hma, <- Hmb.
  split; [exact Hord|].
  apply round3_mono.
  destruct Hord as [Hlt|[[Heq _]|[Heq _]]].
  - by apply Qlt_le_weak.
  - rewrite Heq. apply Qle_refl.
  - rewrite Heq. apply Qle_refl.
Qed.

(** C4, as the code has it.  Every entry of a resolved response belongs to
    a movie of the collection that passes the genre filter; its [avgRating]
    is the arithmetic mean, rounded to three decimals, of the scores of all
    the ratings that refer to that movie; its [voteCount] is the number of
    those ratings, and is at least the effective [minVotes]. *)
Theorem entries_are_rounded_means (now : string) (db : Database) (query : Query)
    (resp : TopRated) (e : Row) :
  getTopRated now db query = Resolved resp ->
  e ∈ data resp ->
  exists (genreRegex : option RegExp) (m : Movie.t),
    getTopRated_genreRegex query = Resolved genreRegex /\
    movies db !! movieId e = Some m /\
    passesGenre genreRegex m = true /\
    title e = Movie.title m /\
    genre e = Movie.genre m /\
    avgRating e = round3 (mean (scoresOf db (movieId e))) /\
    voteCount e = Z.of_nat (length (scoresOf db (movieId e))) /\
    getTopRated_minVotes query <= voteCount e.
Proof.
  intros (re & gs & Hre & Hgs & Hdata)%getTopRated_Resolved He.
  rewrite Hdata in He. apply list_elem_of_lookup in He as [i Hi].
  apply entry_project_lookup in Hi as (g & Hg & Hid & Ht & Hgen & Havg & Hv).
  destruct (ranked_elem _ _ _ _ _ g Hgs (list_elem_of_lookup_2 _ _ _ Hg))
    as (m & Hm & Hp & Hgid & Hgt & Hgg & Hc & Hmean & Hmin).
  exists re, m. rewrite Hid, Hgid, Ht, Hgen, Havg, Hv.
  repeat split; try done.
  by apply round3_comp.
Qed.

Lemma eligible_elem (db : Database) (genreRegex : option RegExp) (minVotes : Z)
    (k : ObjectId) (m : Movie.t) :
  movies db !! k = Some m ->
  passesGenre genreRegex m = true ->
  minVotes <= Z.of_nat (length (scoresOf db k)) ->
  (k, m) ∈ eligible db genreRegex minVotes.
Proof.
  intros Hm Hp Hv. unfold eligible. apply list_elem_of_filter. simpl.
  split; [|by apply elem_of_map_to_list].
  split; [by apply Is_true_true | done].
Qed.

(** C5, as the code has it.  The effective [limit] is 10 when the
    parameter is missing, when [parseInt] finds no number in it, and when
    the number found is zero; otherwise it is that number clamped to the
    range from 1 to 50.  A resolved response has at most [limit] entries,
    and at most as many as there are distinct movies that pass the genre
    filter and have at least the effective [minVotes] ratings. *)
Theorem limit_bounds_the_response :
  (forall query : Query,
     getTopRated_limit query =
       match q_limit query with
       | None => 10
       | Some s =>
           match Js.parseInt s 10 with
           | None | Some 0 => 10
           | Some n => clamp 1 50 n
           end
       end /\
     1 <= getTopRated_limit query <= 50) /\
  (forall (now : string) (db : Database) (query : Query) (resp : TopRated),
     getTopRated now db query = Resolved resp ->
     exists genreRegex : option RegExp,
       getTopRated_genreRegex query = Resolved genreRegex /\
       Z.of_nat (length (data resp)) <= getTopRated_limit query /\
       (length (data resp) <=
        length (eligible db genreRegex (getTopRated_minVotes query)))%nat).
Proof.
  split; [exact limit_normalised|].
  intros now db query resp (re & gs & Hre & Hgs & Hdata)%getTopRated_Resolved.
  exists re. rewrite Hdata, !length_fmap. split; [done|]. split.
  - apply ranked_Resolved in Hgs as [Hl ->]. rewrite length_take. lia.
  - rewrite <- (length_fmap _id gs), <- (length_fmap fst (eligible _ _ _)).
    apply submseteq_length, NoDup_submseteq; [by eapply ranked_NoDup|].
    intros k (g & -> & Hg)%list_elem_of_fmap.
    destruct (ranked_elem _ _ _ _ _ g Hgs Hg)
      as (m & Hm & Hp & _ & _ & _ & Hc & _ & Hmin).
    apply list_elem_of_fmap. exists (_id g, m). split; [done|].
    apply eligible_elem; [done..|]. by rewrite <- Hc.
Qed.

(** C8.  A rating whose movie reference resolves to no movie leaves the
    result of the aggregation, and the response of the query, as they are
    without it; and the aggregation resolves for every positive limit,
    whatever the ratings refer to. *)
Theorem dangling_rating_is_dropped (ms : gmap ObjectId Movie.t)
    (l1 l2 : list Rating.t) (r : Rating.t)
    (genreRegex : option RegExp) (minVotes limit : Z)
    (now : string) (query : Query) :
  ms !! Rating.movie r = None ->
  getTopRatedAggregates {| movies := ms; ratings := l1 ++ r :: l2 |}
    genreRegex minVotes limit =
  getTopRatedAggregates {| movies := ms; ratings := l1 ++ l2 |}
    genreRegex minVotes limit /\
  getTopRated now {| movies := ms; ratings := l1 ++ r :: l2 |} query =
  getTopRated now {| movies := ms; ratings := l1 ++ l2 |} query /\
  (0 < limit ->
   exists rows,
     getTopRatedAggregates {| movies := ms; ratings := l1 ++ r :: l2 |}
       genreRegex minVotes limit = Resolved rows).
Proof.
  intros Hr.
  assert (lookup_unwind ms (l1 ++ r :: l2) = lookup_unwind ms (l1 ++ l2)) as Hj.
  { by rewrite !lookup_unwind_app, lookup_unwind_dangling. }
  unfold getTopRated, getTopRatedAggregates, ranked. simpl. rewrite Hj.
  repeat split.
  intros Hl. unfold limit_stage. rewrite (proj2 (Z.ltb_lt 0 limit) Hl). simpl.
  eauto.
Qed.

End TopRatedEntries.

Lemma adjacent_entries_ordered_witness :
  exists A B : Row,
    movieId A = "M1" /\ movieId B = "M2" /\
    tieBreak (mean (scoresOf Sample.threeMovies (movieId A)))
             (mean (scoresOf Sample.threeMovies (movieId B))) A B /\
    (avgRating B <= avgRating A)%Q.
Proof.
  eexists _, _.
  split; [|split; [|
    eapply (@adjacent_entries_ordered patternEngine "2024-01-01T00:00:00.000Z"
              Sample.threeMovies Sample.noParams _ 0);
      [vm_compute; reflexivity | reflexivity | reflexivity]]];
    reflexivity.
Defined.

(** C3 as stated fails on the rounded averages of the entries: the means
    51/28 and 71/39 both round to 1.821, so the first entry neither has the
    greater [avgRating] nor, at equal [avgRating], the greater [voteCount]
    (28 against 39). *)
Lemma rounded_averages_break_the_order :
  exists (resp : TopRated) (A B : Row),
    @getTopRated patternEngine "2024-01-01T00:00:00.000Z" Sample.nearTie
      Sample.noParams = Resolved resp /\
    data resp !! 0%nat = Some A /\
    data resp !! 1%nat = Some B /\
    ~ tieBreak (avgRating A) (avgRating B) A B.
Proof.
  eexists _, _, _.
  split; [vm_compute; reflexivity|].
  split; [reflexivity|]. split; [reflexivity|].
  unfold tieBreak; simpl.
  intros [H|[[_ H]|(_ & H & _)]]; [|lia|lia].
  unfold Qlt in H; simpl in H; lia.
Qed.

Lemma entries_are_rounded_means_witness :
  exists (genreRegex : option (@RegExp patternEngine)) (m : Movie.t),
    movies Sample.threeMovies !! "M1" = Some m /\
    passesGenre genreRegex m = true /\
    (4667 # 1000)%Q = round3 (mean (scoresOf Sample.threeMovies "M1")) /\
    3 = Z.of_nat (length (scoresOf Sample.threeMovies "M1")).
Proof.
  destruct (@entries_are_rounded_means patternEngine "2024-01-01T00:00:00.000Z"
              Sample.threeMovies Sample.noParams _
              {| movieId := "M1"; title := "Alpha"; genre := Some "Sci-Fi Action";
                 avgRating := 4667 # 1000; voteCount := 3 |}
              eq_refl (list_elem_of_here _ _))
    as (re & m & _ & Hm & Hp & _ & _ & Havg & Hv & _).
  exists re, m.
  split; [exact Hm|]. split; [exact Hp|]. split; [exact Havg | exact Hv].
Defined.

(** C4 as stated fails: the [avgRating] of an entry is the rounded mean.
    For the scores 5, 4 and 5 it is 4.667, not 14/3. *)
Lemma avgRating_is_not_the_exact_mean :
  exists (resp : TopRated) (e : Row),
    @getTopRated patternEngine "2024-01-01T00:00:00.000Z" Sample.threeMovies
      Sample.noParams = Resolved resp /\
    e ∈ data resp /\
    scoresOf Sample.threeMovies (movieId e) = [5; 4; 5]%Q /\
    ~ (avgRating e == mean (scoresOf Sample.threeMovies (movieId e))).
Proof.
  eexists _, _.
  split; [vm_compute; reflexivity|].
  split; [apply list_elem_of_here|].
  split; [reflexivity|].
  vm_compute. discriminate.
Qed.

Lemma limit_bounds_the_response_witness :
  exists resp : TopRated,
    @getTopRated patternEngine "2024-01-01T00:00:00.000Z" Sample.threeMovies
      (Sample.withLimit "1") = Resolved resp /\
    Z.of_nat (length (data resp)) <= 1 /\
    (length (data resp) <= 2)%nat.
Proof.
  eexists. split; [vm_compute; reflexivity|].
  destruct (proj2 (@limit_bounds_the_response patternEngine)
              "2024-01-01T00:00:00.000Z"
              Sample.threeMovies (Sample.withLimit "1") _ eq_refl)
    as (re & Hre & Hlimit & Heligible).
  injection Hre as <-.
  split; [exact Hlimit | exact Heligible].
Defined.

Lemma dangling_rating_is_dropped_witness :
  @getTopRatedAggregates patternEngine Sample.threeMovies None 3 10 =
  @getTopRatedAggregates patternEngine
    {| movies := movies Sample.threeMovies;
       ratings := (Sample.votes "M1" [5; 4]%Q ++ Sample.votes "M2" [3; 3]%Q) ++
                  Sample.votes "M3" [5]%Q ++ Sample.votes "M1" [5]%Q ++
                  Sample.votes "M2" [3; 3]%Q |} None 3 10.
Proof.
  exact (proj1 (@dangling_rating_is_dropped patternEngine
                  (movies Sample.threeMovies)
                  (Sample.votes "M1" [5; 4]%Q ++ Sample.votes "M2" [3; 3]%Q)
                  (Sample.votes "M3" [5]%Q ++ Sample.votes "M1" [5]%Q ++
                   Sample.votes "M2" [3; 3]%Q)
                  (Rating.mk "M9" 1) None 3 10
                  "2024-01-01T00:00:00.000Z" Sample.noParams eq_refl)).
Defined.

(** ** The genre filter *)

(** *** The pattern engine *)

Lemma matchesPrefix_Fail (s : string) : Pattern.matchesPrefix Pattern.Fail s = false.
Proof. induction s as [|c s IH]; [done | exact IH]. Qed.

Lemma matchesPrefix_Alt (r1 r2 : Pattern.t) (s : string) :
  Pattern.matchesPrefix (Pattern.Alt r1 r2) s =
  Pattern.matchesPrefix r1 s || Pattern.matchesPrefix r2 s.
Proof.
  revert r1 r2. induction s as [|c s IH]; intros r1 r2; simpl.
  - by rewrite !orb_false_r.
  - rewrite IH.
    destruct (Pattern.nullable r1), (Pattern.nullable r2),
      (Pattern.matchesPrefix (Pattern.deriv c r1) s); done.
Qed.

Lemma matchesPrefix_Seq_Fail (r : Pattern.t) (s : string) :
  Pattern.matchesPrefix (Pattern.Seq Pattern.Fail r) s = false.
Proof.
  induction s as [|c s IH]; [done|].
  simpl. by rewrite matchesPrefix_Alt, IH, matchesPrefix_Fail.
Qed.

Lemma matchesPrefix_Seq_Eps (r : Pattern.t) (s : string) :
  Pattern.matchesPrefix (Pattern.Seq Pattern.Eps r) s = Pattern.matchesPrefix r s.
Proof.
  destruct s as [|c s]; [done|].
  simpl. by rewrite matchesPrefix_Alt, matchesPrefix_Seq_Fail.
Qed.

(** A string of plain characters is read as the sequence of its
    characters. *)
Lemma read_literal (p : string) (f : Pattern.Frame) :
  literalPattern p = true ->
  Pattern.read [] f p =
  Some (fold_left (fun acc a => Pattern.Alt a acc) (Pattern.alts f)
          (fold_left (fun acc x => Pattern.Seq x acc) (Pattern.terms f)
             (Pattern.literal p))).
Proof.
  revert f. induction p as [|c p IH]; intros f Hp; [done|].
  simpl in Hp. apply andb_true_iff in Hp as [Hc Hp].
  apply andb_true_iff in Hc as [Hsyn Hascii].
  apply negb_true_iff in Hsyn.
  simpl. rewrite Hsyn, Hascii. by rewrite IH.
Qed.

Lemma parse_literal (p : string) :
  literalPattern p = true -> Pattern.parse p = Some (Pattern.literal p).
Proof. intros Hp. unfold Pattern.parse. by rewrite read_literal. Qed.

(** Such a pattern matches at the beginning of the subjects that begin
    with the string, and somewhere in the subjects that contain it, letter
    case apart. *)
Lemma matchesPrefix_literal (p s : string) :
  Pattern.matchesPrefix (Pattern.literal p) s = startsWithCI p s.
Proof.
  revert s. induction p as [|a p IH]; intros s.
  - by destruct s.
  - destruct s as [|b s]; [done|].
    simpl. rewrite matchesPrefix_Alt, matchesPrefix_Fail, orb_false_r.
    destruct (Ascii.eqb (toLower a) (toLower b)); simpl.
    + by rewrite matchesPrefix_Seq_Eps.
    + apply matchesPrefix_Seq_Fail.
Qed.

Lemma test_literal (p s : string) :
  Pattern.test (Pattern.literal p) s = includesCI p s.
Proof.
  induction s as [|b s IH]; cbn [Pattern.test includesCI].
  - by rewrite matchesPrefix_literal.
  - by rewrite matchesPrefix_literal, IH.
Qed.

(** *** The engine and the strings a pattern stands for *)

Lemma append_nil_inv (u v : string) : (u ++ v)%string = "" -> u = "" /\ v = "".
Proof. by destruct u. Qed.

Lemma nullable_Matches (r : Pattern.t) :
  Pattern.nullable r = true <-> Matches r "".
Proof.
  split.
  - induction r as [| | | |r1 IH1 r2 IH2|r1 IH1 r2 IH2|r IH]; simpl; try done.
    + intros _. constructor.
    + intros [H1 H2]%andb_true_iff.
      apply (Matches_Seq r1 r2 "" ""); auto.
    + intros [H|H]%orb_true_iff;
        [apply Matches_Alt_l | apply Matches_Alt_r]; auto.
    + intros _. constructor.
  - intros H. remember EmptyString as w eqn:Hw.
    induction H as [|a c Hac|c Hc|r s u v Hr IHr Hs IHs|r s u Hr IHr
                    |r s u Hs IHs|r|r u v Hr IHr Hs IHs]; simpl; try done.
    + apply append_nil_inv in Hw as [-> ->]. by rewrite IHr, IHs.
    + by rewrite IHr.
    + rewrite IHs by done. apply orb_true_r.
Qed.

Lemma Matches_deriv (r : Pattern.t) (w : string) :
  Matches r w ->
  forall c s, w = String c s -> Matches (Pattern.deriv c r) s.
Proof.
  induction 1 as [|a c0 Hac|c0 Hc|r s u v Hr IHr Hs IHs|r s u Hr IHr
                  |r s u Hs IHs|r|r u v Hr IHr Hs IHs]; intros c w Hw; simpl.
  - done.
  - injection Hw as -> <-. rewrite Hac, Ascii.eqb_refl. constructor.
  - injection Hw as -> <-.
    destruct (Ascii.eqb_spec c "010"); [done | constructor].
  - destruct u as [|c' u'].
    + change (v = String c w) in Hw. subst v.
      apply nullable_Matches in Hr. rewrite Hr.
      apply Matches_Alt_r. by apply IHs.
    + change (String c' (u' ++ v) = String c w) in Hw. injection Hw as -> <-.
      apply Matches_Alt_l. apply Matches_Seq; [by apply IHr | done].
  - apply Matches_Alt_l. by apply IHr.
  - apply Matches_Alt_r. by apply IHs.
  - done.
  - destruct u as [|c' u'].
    + change (v = String c w) in Hw. subst v. by apply IHs.
    + change (String c' (u' ++ v) = String c w) in Hw. injection Hw as -> <-.
      apply Matches_Seq; [by apply IHr | done].
Qed.

Lemma deriv_Matches (c : ascii) (r : Pattern.t) (s : string) :
  Matches (Pattern.deriv c r) s -> Matches r (String c s).
Proof.
  revert s.
  induction r as [| |a| |r1 IH1 r2 IH2|r1 IH1 r2 IH2|r IH]; intros s; simpl.
  - inversion 1.
  - inversion 1.
  - destruct (Ascii.eqb_spec (toLower a) (toLower c)) as [Hac|_];
      inversion 1; subst. by constructor.
  - destruct (Ascii.eqb_spec c "010") as [_|Hc]; inversion 1; subst.
    by constructor.
  - inversion 1 as [| | | |? ? ? Hl|? ? ? Hr| |]; subst.
    + inversion Hl as [| | |? ? u v Hu Hv| | | |]; subst.
      apply (Matches_Seq r1 r2 (String c u) v); [by apply IH1 | done].
    + destruct (Pattern.nullable r1) eqn:Hn; [|inversion Hr].
      apply (Matches_Seq r1 r2 "" (String c s));
        [by apply nullable_Matches | by apply IH2].
  - inversion 1; subst;
      [apply Matches_Alt_l; by apply IH1 | apply Matches_Alt_r; by apply IH2].
  - inversion 1 as [| | |? ? u v Hu Hv| | | |]; subst.
    apply (Matches_Star_app r (String c u) v); [by apply IH | done].
Qed.

(** The engine finds a match at the beginning of a subject exactly when
    the pattern stands for a prefix of it, and somewhere in a subject
    exactly when the pattern stands for a part of it. *)
Lemma matchesPrefix_spec (r : Pattern.t) (s : string) :
  Pattern.matchesPrefix r s = true <->
  exists u v, s = (u ++ v)%string /\ Matches r u.
Proof.
  revert r. induction s as [|c s IH]; intros r; simpl.
  - rewrite orb_false_r, nullable_Matches. split.
    + intros H. by exists "", "".
    + intros (u & v & Huv & Hu). symmetry in Huv.
      by apply append_nil_inv in Huv as [-> _].
  - rewrite orb_true_iff, nullable_Matches, IH. split.
    + intros [H|(u & v & -> & Hu)].
      * by exists "", (String c s).
      * exists (String c u), v. split; [done | by apply deriv_Matches].
    + intros (u & v & Huv & Hu). destruct u as [|c' u]; [by left|].
      change (String c s = String c' (u ++ v)) in Huv.
      injection Huv as <- ->. right.
      exists u, v. split; [done | by eapply Matches_deriv].
Qed.

Lemma test_spec (r : Pattern.t) (s : string) :
  Pattern.test r s = true <->
  exists pre u post, s = (pre ++ u ++ post)%string /\ Matches r u.
Proof.
  induction s as [|c s IH]; cbn [Pattern.test].
  - rewrite orb_false_r, matchesPrefix_spec. split.
    + intros (u & v & Huv & Hu). by exists "", u, v.
    + intros (pre & u & post & Hs & Hu). symmetry in Hs.
      apply append_nil_inv in Hs as [-> Hs]. by exists u, post.
  - rewrite orb_true_iff, matchesPrefix_spec, IH. split.
    + intros [(u & v & Huv & Hu)|(pre & u & post & -> & Hu)].
      * by exists "", u, v.
      * by exists (String c pre), u, post.
    + intros (pre & u & post & Hs & Hu). destruct pre as [|c' pre].
      * left. by exists u, post.
      * change (String c s = String c' (pre ++ u ++ post)) in Hs.
        injection Hs as <- ->. right. by exists pre, u, post.
Qed.

(** *** The filter in the aggregation *)

(** With an expression that matches the genres of the movies that [keep]
    accepts, [$match] keeps the joined documents of the ratings that refer
    to such a movie. *)
Lemma match_genre_ratings `{E : RegexEngine} (re : RegExp)
    (keep : Movie.t -> bool) (ms : gmap ObjectId Movie.t) (rs : list Rating.t) :
  (forall m, genreMatches re m = keep m) ->
  match_genre (Some re) (lookup_unwind ms rs) =
  lookup_unwind ms (filter (fun r => refersTo keep ms r) rs).
Proof.
  intros Hre. induction rs as [|r rs IH]; [done|].
  rewrite filter_cons.
  destruct (ms !! Rating.movie r) as [m|] eqn:Hm.
  - assert (refersTo keep ms r = keep m) as Hrg.
    { unfold refersTo. by rewrite Hm. }
    rewrite (lookup_unwind_resolved _ _ m) by done.
    cbn [match_genre] in *. rewrite filter_cons. cbn [j_movie].
    rewrite IH, Hre.
    destruct (decide (refersTo keep ms r)) as [Hd|Hd]; rewrite Hrg in Hd.
    + rewrite decide_True by done.
      by rewrite (lookup_unwind_resolved _ _ m).
    + by rewrite decide_False.
  - assert (refersTo keep ms r = false) as Hrg.
    { unfold refersTo. by rewrite Hm. }
    rewrite lookup_unwind_dangling by done.
    destruct (decide (refersTo keep ms r)) as [Hd|Hd]; [by rewrite Hrg in Hd|].
    exact IH.
Qed.

Lemma aggregates_ratings `{E : RegexEngine} (re : RegExp)
    (keep : Movie.t -> bool) (db : Database) (minVotes limit : Z) :
  (forall m, genreMatches re m = keep m) ->
  getTopRatedAggregates db (Some re) minVotes limit =
  getTopRatedAggregates (ratingsWhere keep db) None minVotes limit.
Proof.
  intros Hre. unfold getTopRatedAggregates, ranked.
  by rewrite (match_genre_ratings _ keep).
Qed.

(** C6.  A genre parameter that, once trimmed, is a non-empty string of
    plain characters compiles to an expression that matches exactly the
    texts containing that string, letter case apart.  With it the
    aggregation gives what it gives without a filter on the ratings that
    refer to a movie whose genre contains the string, and on no others;
    so does the response of the query, every entry of which has such a
    genre.  With any expression of the engine, the aggregation gives what
    it gives without a filter on the ratings that refer to a movie whose
    genre has a part that the pattern stands for.  On the sample collection
    the filter "action" keeps the movies of genre "Sci-Fi Action" and
    "Action/Adventure", neither of which is equal to it, and "sci" keeps
    the first of them only. *)
Theorem genre_filter_is_substring :
  (forall (now : string) (db : Database) (query : Query),
     Js.truthy (getTopRated_genre query) = true ->
     literalPattern (getTopRated_genre query) = true ->
     exists (re : Pattern.t) (rows : list Row) (resp : TopRated),
       @getTopRated_genreRegex patternEngine query = Resolved (Some re) /\
       (forall s, Pattern.test re s = includesCI (getTopRated_genre query) s) /\
       (forall minVotes limit : Z,
          @getTopRatedAggregates patternEngine db (Some re) minVotes limit =
          @getTopRatedAggregates patternEngine
            (ratingsOfGenre (getTopRated_genre query) db) None minVotes limit) /\
       @getTopRatedAggregates patternEngine
         (ratingsOfGenre (getTopRated_genre query) db) None
         (getTopRated_minVotes query) (getTopRated_limit query) = Resolved rows /\
       @getTopRated patternEngine now db query = Resolved resp /\
       data resp = entry <$> rows /\
       (forall e, e ∈ data resp ->
          exists g, genre e = Some g /\
                    includesCI (getTopRated_genre query) g = true)) /\
  (forall (db : Database) (re : Pattern.t),
     (forall minVotes limit : Z,
        @getTopRatedAggregates patternEngine db (Some re) minVotes limit =
        @getTopRatedAggregates patternEngine
          (ratingsWhere (@genreMatches patternEngine re) db) None
          minVotes limit) /\
     (forall m : Movie.t,
        @genreMatches patternEngine re m = true <->
        exists (g pre u post : string),
          Movie.genre m = Some g /\ g = (pre ++ u ++ post)%string /\
          Matches re u)) /\
  (forall now : string,
     (fun resp => (fun e => (movieId e, genre e)) <$> data resp) <$>
       @getTopRated patternEngine now Sample.threeMovies
         (Sample.withGenreMinVotes "action" "1") =
     Resolved [("M1", Some "Sci-Fi Action"); ("M2", Some "Action/Adventure")]) /\
  (forall now : string,
     (fun resp => (fun e => (movieId e, genre e)) <$> data resp) <$>
       @getTopRated patternEngine now Sample.threeMovies
         (Sample.withGenreMinVotes "sci" "1") =
     Resolved [("M1", Some "Sci-Fi Action")]) /\
  (forall now : string,
     (fun resp => (fun e => (movieId e, genre e)) <$> data resp) <$>
       @getTopRated patternEngine now Sample.threeMovies
         (Sample.withGenreMinVotes "Action" "1") =
     Resolved [("M1", Some "Sci-Fi Action"); ("M2", Some "Action/Adventure")]).
Proof.
  split; [|split; [|by repeat split]].
  - intros now db query Ht Hl.
    set (p := getTopRated_genre query) in *.
    assert (@getTopRated_genreRegex patternEngine query =
            Resolved (Some (Pattern.literal p))) as Hre.
    { unfold getTopRated_genreRegex, compile. fold p. rewrite Ht. simpl.
      by rewrite parse_literal. }
    assert (forall minVotes limit : Z,
              @getTopRatedAggregates patternEngine db (Some (Pattern.literal p))
                minVotes limit =
              @getTopRatedAggregates patternEngine (ratingsOfGenre p db) None
                minVotes limit) as Hagg.
    { intros minVotes limit.
      apply (aggregates_ratings (E := patternEngine)). intros m.
      unfold genreMatches, genreIncludes.
      destruct (Movie.genre m); [apply test_literal | done]. }
    destruct (getTopRated_resolves (E := patternEngine) now db query _ Hre)
      as [resp Hresp].
    destruct (getTopRated_Resolved (E := patternEngine) _ _ _ _ Hresp)
      as (re' & gs & Hre' & Hgs & Hdata).
    rewrite Hre in Hre'. injection Hre' as <-.
    exists (Pattern.literal p), (project <$> gs), resp.
    split; [done|]. split; [apply test_literal|]. split; [done|].
    split; [|split; [done|split; [done|]]].
    + rewrite <- Hagg. unfold getTopRatedAggregates. by rewrite Hgs.
    + intros e He. rewrite Hdata in He. apply list_elem_of_lookup in He as [i Hi].
      apply entry_project_lookup in Hi as (g & Hg & _ & _ & Hgen & _).
      destruct (ranked_elem (E := patternEngine) _ _ _ _ _ g Hgs
                  (list_elem_of_lookup_2 _ _ _ Hg))
        as (m & _ & Hp & _ & _ & Hgg & _).
      simpl in Hp. unfold genreMatches in Hp. rewrite Hgen, Hgg.
      destruct (Movie.genre m) as [x|]; [|done].
      exists x. split; [done|]. by rewrite <- (test_literal p x).
  - intros db re. split.
    + intros minVotes limit. by apply (aggregates_ratings (E := patternEngine)).
    + intros m. unfold genreMatches. destruct (Movie.genre m) as [g|].
      * change (@regexMatch patternEngine re g) with (Pattern.test re g).
        rewrite test_spec.
        split.
        -- intros (pre & u & post & -> & Hu).
           by exists (pre ++ u ++ post)%string, pre, u, post.
        -- intros (g' & pre & u & post & [= <-] & -> & Hu).
           by exists pre, u, post.
      * split; [done|]. by intros (g & _ & _ & _ & ? & _).
Qed.

Lemma genre_filter_is_substring_witness :
  exists (re : Pattern.t) (resp : TopRated),
    @getTopRated_genreRegex patternEngine (Sample.withGenre "  action ") =
      Resolved (Some re) /\
    (forall s, Pattern.test re s = includesCI "action" s) /\
    @getTopRated patternEngine Sample.now Sample.threeMovies
      (Sample.withGenre "  action ") = Resolved resp /\
    (forall e, e ∈ data resp ->
       exists g, genre e = Some g /\ includesCI "action" g = true).
Proof.
  destruct (proj1 genre_filter_is_substring Sample.now Sample.threeMovies
              (Sample.withGenre "  action ") eq_refl eq_refl)
    as (re & rows & resp & Hre & Htest & _ & _ & Hresp & _ & Hgenre).
  exists re, resp.
  split; [exact Hre|]. split; [exact Htest|].
  split; [exact Hresp | exact Hgenre].
Defined.

(** The filter at work on the sample collection, every movie having enough
    votes: a pattern need not be a plain string, a blank genre keeps all
    three movies, and an ill-formed pattern rejects the query. *)
Example genre_filter_samples :
  let ids (g : string) :=
    match @getTopRated patternEngine "2024-01-01T00:00:00.000Z"
            Sample.threeMovies (Sample.withGenreMinVotes g "1") with
    | Resolved resp => Some (movieId <$> data resp)
    | Rejected _ => None
    end in
  ids "action" = Some ["M1"; "M2"] /\
  ids "SCI" = Some ["M1"] /\
  ids "  " = Some ["M3"; "M1"; "M2"] /\
  ids "a.t" = Some ["M1"; "M2"] /\
  ids "sci|dra" = Some ["M3"; "M1"] /\
  ids "act.*adv" = Some ["M2"] /\
  ids "a\.t" = Some [] /\
  ids "(" = None /\
  ids "a**" = None.
Proof. by vm_compute. Qed.

(** The example of the specification: M1 (4.667, 3 votes) stands before M2
    (3.000, 4 votes), and M3 with its single vote is left out. *)
Example specification_example :
  @getTopRated patternEngine "2024-01-01T00:00:00.000Z" Sample.threeMovies
    Sample.noParams =
  Resolved
    {| data := [ {| movieId := "M1"; title := "Alpha";
                    genre := Some "Sci-Fi Action";
                    avgRating := 4667 # 1000; voteCount := 3 |};
                 {| movieId := "M2"; title := "Beta";
                    genre := Some "Action/Adventure";
                    avgRating := 3000 # 1000; voteCount := 4 |} ];
       meta := {| generatedAt := "2024-01-01T00:00:00.000Z";
                  m_limit := 10; m_minVotes := 3; m_genre := None |} |}.
Proof. by vm_compute. Qed.

(** ** The order of [$sort] is a total preorder *)

Lemma String_leb_trans (s1 s2 s3 : string) :
  String.leb s1 s2 = true -> String.leb s2 s3 = true -> String.leb s1 s3 = true.
Proof.
  unfold String.leb. revert s2 s3.
  induction s1 as [|c1 s1 IH]; intros [|c2 s2] [|c3 s3]; simpl; try done.
  unfold Ascii.compare.
  destruct (N.compare_spec (N_of_ascii c1) (N_of_ascii c2));
    destruct (N.compare_spec (N_of_ascii c2) (N_of_ascii c3));
    destruct (N.compare_spec (N_of_ascii c1) (N_of_ascii c3));
    try done; try lia; eauto.
Qed.

Global Instance sortOrder_trans : Transitive sortOrder.
Proof.
  intros a b c. unfold sortOrder. rewrite !sortLeb_spec.
  intros [Hab|[[Hab Hv]|(Hab & Hv & Ht)]] [Hbc|[[Hbc Hv']|(Hbc & Hv' & Ht')]].
  - left. by apply Qlt_trans with (g_avgRating b).
  - left. by rewrite <- Hbc.
  - left. by rewrite <- Hbc.
  - left. by rewrite Hab.
  - right. left. split; [by rewrite Hab | lia].
  - right. left. split; [by rewrite Hab | lia].
  - left. by rewrite Hab.
  - right. left. split; [by rewrite Hab | lia].
  - right. right. split; [by rewrite Hab|]. split; [lia|].
    by apply String_leb_trans with (g_title b).
Qed.

(** ** The groups that pass the vote threshold *)

Section Qualified.
Context `{E : RegexEngine}.

(** The documents on which [$sort] works. *)
Lemma qualified_elem (db : Database) (genreRegex : option RegExp)
    (minVotes : Z) (g : Group) :
  g ∈ match_votes minVotes
        (group (match_genre genreRegex
                  (lookup_unwind (movies db) (ratings db)))) ->
  exists m : Movie.t,
    movies db !! _id g = Some m /\
    passesGenre genreRegex m = true /\
    g_movieId g = _id g /\
    g_title g = Movie.title m /\
    g_genre g = Movie.genre m /\
    g_voteCount g = Z.of_nat (length (scoresOf db (_id g))) /\
    g_avgRating g == mean (scoresOf db (_id g)) /\
    minVotes <= g_voteCount g.
Proof.
  intros [Hv Hg]%list_elem_of_filter.
  apply group_spec in Hg as (Hid & Hc & Havg & j & Hj & Hjid & Ht & Hgen).
  apply joined_elem in Hj as [Hm Hp].
  exists (j_movie j). rewrite Hjid in Hm.
  rewrite <- (length_fmap j_rating) in Hc.
  rewrite (joined_scores db genreRegex (_id g) (j_movie j) Hm Hp) in Hc, Havg.
  repeat split; done.
Qed.

(** Every movie that passes the filter and has a rating has its group. *)
Lemma group_cover (db : Database) (genreRegex : option RegExp)
    (k : ObjectId) (m : Movie.t) :
  movies db !! k = Some m ->
  passesGenre genreRegex m = true ->
  scoresOf db k <> [] ->
  exists g, g ∈ group (match_genre genreRegex
                         (lookup_unwind (movies db) (ratings db))) /\
            _id g = k.
Proof.
  intros Hm Hp Hne.
  rewrite <- (joined_scores db genreRegex k m Hm Hp) in Hne.
  set (js := match_genre genreRegex (lookup_unwind (movies db) (ratings db))) in *.
  destruct (docsOf k js) as [|j l] eqn:Hdocs; [done|].
  assert (j ∈ docsOf k js) as Hj by (rewrite Hdocs; apply list_elem_of_here).
  apply list_elem_of_filter in Hj as [Hk Hj].
  destruct (foldl_accumulate js) as (_ & Hcover & _).
  pose proof (Hcover j Hj) as Hin. rewrite <- group_ids in Hin.
  apply list_elem_of_fmap in Hin as (g & Hg & Hgin).
  exists g. split; [done | congruence].
Qed.

(** With a threshold of at least one vote, the groups that pass it are the
    eligible movies, each once. *)
Lemma qualified_eligible (db : Database) (genreRegex : option RegExp)
    (minVotes : Z) :
  1 <= minVotes ->
  _id <$> match_votes minVotes
            (group (match_genre genreRegex
                      (lookup_unwind (movies db) (ratings db))))
  ≡ₚ (eligible db genreRegex minVotes).*1.
Proof.
  intros Hmin. apply NoDup_Permutation.
  - eapply sublist_NoDup; [apply group_NoDup|].
    apply fmap_sublist, sublist_filter.
  - apply (sublist_NoDup _ ((map_to_list (movies db)).*1));
      [apply NoDup_fst_map_to_list|].
    apply fmap_sublist, sublist_filter.
  - intros k. split.
    + intros (g & -> & Hg)%list_elem_of_fmap.
      destruct (qualified_elem _ _ _ _ Hg)
        as (m & Hm & Hp & _ & _ & _ & Hc & _ & Hv).
      apply list_elem_of_fmap. exists (_id g, m). split; [done|].
      apply eligible_elem; [done..|]. by rewrite <- Hc.
    + intros ([k' m] & -> & Hkm)%list_elem_of_fmap. simpl.
      apply list_elem_of_filter in Hkm as [[Hp Hv] Hm]. simpl in Hp, Hv.
      apply elem_of_map_to_list in Hm. apply Is_true_true in Hp.
      destruct (group_cover db genreRegex k' m Hm Hp) as (g & Hg & Hid).
      { intros Hnil. rewrite Hnil in Hv. simpl in Hv. lia. }
      apply list_elem_of_fmap. exists g. split; [done|].
      apply list_elem_of_filter. split; [|done].
      destruct (group_spec _ _ Hg) as (_ & Hc & _).
      rewrite Hc, Hid, <- (length_fmap j_rating),
        (joined_scores db genreRegex k' m Hm Hp). done.
Qed.

(** What [$limit] cuts off ranks no earlier than what it keeps. *)
Lemma ranked_top (db : Database) (genreRegex : option RegExp)
    (minVotes limit : Z) (gs : list Group) (g g' : Group) :
  ranked db genreRegex minVotes limit = Resolved gs ->
  g ∈ match_votes minVotes
        (group (match_genre genreRegex
                  (lookup_unwind (movies db) (ratings db)))) ->
  g ∉ gs -> g' ∈ gs -> sortOrder g' g.
Proof.
  intros [_ ->]%ranked_Resolved Hg Hout Hin.
  set (l := match_votes _ _) in *.
  pose proof (StronglySorted_merge_sort sortOrder l) as Hs.
  fold (sort l) in Hs. rewrite <- (take_drop (Z.to_nat limit) (sort l)) in Hs.
  eapply StronglySorted_app_1_elem_of; [exact Hs | exact Hin |].
  assert (g ∈ sort l) as Hgs.
  { unfold sort. by rewrite merge_sort_Permutation. }
  rewrite <- (take_drop (Z.to_nat limit) (sort l)) in Hgs.
  apply elem_of_app in Hgs as [?|?]; done.
Qed.

End Qualified.

(** ** The ranking comes before the rounding *)

Lemma StronglySorted_lookup_lt {A} (R : relation A) (l : list A) (i j : nat)
    (a b : A) :
  StronglySorted R l -> (i < j)%nat -> l !! i = Some a -> l !! j = Some b ->
  R a b.
Proof.
  intros Hs. revert i j.
  induction Hs as [|x l Hs IH Hx]; intros i j Hij Ha Hb; [done|].
  destruct j as [|j]; [lia|]. destruct i as [|i].
  - injection Ha as ->. eapply Forall_forall in Hx; [exact Hx|].
    by eapply list_elem_of_lookup_2.
  - apply (IH i j); [lia | done | done].
Qed.

Lemma StronglySorted_take {A} (R : relation A) (l : list A) (n : nat) :
  StronglySorted R l -> StronglySorted R (take n l).
Proof.
  intros Hs. rewrite <- (take_drop n l) in Hs.
  by apply StronglySorted_app_1_l in Hs.
Qed.

Section RankingBeforeRounding.
Context `{E : RegexEngine}.

(** The rows are in the three-level order taken on the unrounded means of
    their movies. *)
Lemma rows_ranked (db : Database) (genreRegex : option RegExp)
    (minVotes limit : Z) (gs : list Group) :
  ranked db genreRegex minVotes limit = Resolved gs ->
  StronglySorted (ranksAs db) (project <$> gs).
Proof.
  intros Hgs. pose proof Hgs as [_ Heq]%ranked_Resolved.
  apply (StronglySorted_fmap_strong sortOrder).
  - intros x y Hx Hy Hxy. apply sortLeb_spec in Hxy.
    destruct (ranked_elem _ _ _ _ _ x Hgs Hx)
      as (_ & _ & _ & Hxid & _ & _ & _ & Hxm & _).
    destruct (ranked_elem _ _ _ _ _ y Hgs Hy)
      as (_ & _ & _ & Hyid & _ & _ & _ & Hym & _).
    unfold ranksAs, tieBreak. simpl.
    rewrite Hxid, Hyid, <- Hxm, <- Hym. exact Hxy.
  - rewrite Heq. apply StronglySorted_take, StronglySorted_merge_sort; apply _.
Qed.

(** C2.  The rows of the aggregation are ranked, and cut to the limit, on
    the unrounded means: a row stands before another only if its movie
    ranks no later in the three-level order taken on the exact means of the
    scores; a movie with enough votes that has no row ranks, on those
    means, no earlier than any movie that has one; and the [avgRating] of
    a row is the exact mean of its movie rounded to three decimals, which
    is computed for the rows that are left. *)
Theorem ranking_precedes_rounding (db : Database) (genreRegex : option RegExp)
    (minVotes limit : Z) (rows : list Row) :
  getTopRatedAggregates db genreRegex minVotes limit = Resolved rows ->
  (forall (i j : nat) (A B : Row),
     (i < j)%nat -> rows !! i = Some A -> rows !! j = Some B ->
     tieBreak (mean (scoresOf db (movieId A))) (mean (scoresOf db (movieId B)))
       A B) /\
  (forall (d : MovieDoc) (A : Row),
     1 <= minVotes ->
     d ∈ eligible db genreRegex minVotes ->
     (forall e, e ∈ rows -> movieId e <> d.1) ->
     A ∈ rows ->
     tieBreak (mean (scoresOf db (movieId A))) (mean (scoresOf db d.1))
       A (entryOf db d)) /\
  (forall A : Row,
     A ∈ rows ->
     avgRating A = round3 (mean (scoresOf db (movieId A))) /\
     voteCount A = Z.of_nat (length (scoresOf db (movieId A)))) /\
  (length rows <= Z.to_nat limit)%nat.
Proof.
  unfold getTopRatedAggregates.
  destruct (ranked db genreRegex minVotes limit) as [gs|e] eqn:Hgs; simpl; [|done].
  intros [= <-]. split; [|split; [|split]].
  - intros i j A B Hij HA HB.
    exact (StronglySorted_lookup_lt _ _ _ _ _ _ (rows_ranked _ _ _ _ _ Hgs)
             Hij HA HB).
  - intros [k m] A Hmin Hd Hout HA. simpl in *.
    apply list_elem_of_fmap in HA as (g' & -> & Hg').
    destruct (ranked_elem _ _ _ _ _ g' Hgs Hg')
      as (_ & _ & _ & Hid' & _ & _ & _ & Hmean' & _).
    apply list_elem_of_filter in Hd as [[Hp Hv] Hm]. simpl in Hp, Hv.
    apply elem_of_map_to_list in Hm. apply Is_true_true in Hp.
    destruct (group_cover db genreRegex k m Hm Hp) as (g & Hg & Hgid).
    { intros Hnil. rewrite Hnil in Hv. simpl in Hv. lia. }
    destruct (group_spec _ _ Hg) as (Hgmid & Hgc & _).
    rewrite Hgid, <- (length_fmap j_rating),
      (joined_scores db genreRegex k m Hm Hp) in Hgc.
    assert (g ∈ match_votes minVotes
                  (group (match_genre genreRegex
                            (lookup_unwind (movies db) (ratings db))))) as Hq.
    { apply list_elem_of_filter. split; [by rewrite Hgc | done]. }
    destruct (qualified_elem _ _ _ _ Hq)
      as (m' & Hm' & _ & _ & Hgt & _ & _ & Hgmean & _).
    rewrite Hgid in Hm', Hgmean.
    assert (m' = m) as -> by congruence.
    assert (g ∉ gs) as Hnotin.
    { intros Hin. apply (Hout (project g)); [|simpl; congruence].
      by apply list_elem_of_fmap_2. }
    pose proof (ranked_top _ _ _ _ _ g g' Hgs Hq Hnotin Hg') as Hord.
    apply sortLeb_spec in Hord.
    unfold tieBreak, entryOf. simpl.
    rewrite Hid', <- Hmean', <- Hgmean, <- Hgc, <- Hgt.
    exact Hord.
  - intros A (g & -> & Hg)%list_elem_of_fmap.
    destruct (ranked_elem _ _ _ _ _ g Hgs Hg)
      as (_ & _ & _ & Hid & _ & _ & Hc & Hmean & _).
    simpl. rewrite Hid. split; [by apply round3_comp | done].
  - apply ranked_Resolved in Hgs as [_ ->].
    rewrite length_fmap, length_take. lia.
Qed.

End RankingBeforeRounding.

Lemma ranking_precedes_rounding_witness :
  exists A B : Row,
    @getTopRatedAggregates patternEngine Sample.nearTie None 3 10 =
      Resolved [A; B] /\
    avgRating A = (1821 # 1000)%Q /\ avgRating B = (1821 # 1000)%Q /\
    voteCount A = 28 /\ voteCount B = 39 /\
    mean (scoresOf Sample.nearTie (movieId A)) == 51 # 28 /\
    mean (scoresOf Sample.nearTie (movieId B)) == 71 # 39 /\
    tieBreak (mean (scoresOf Sample.nearTie (movieId A)))
             (mean (scoresOf Sample.nearTie (movieId B))) A B.
Proof.
  eexists _, _. split; [vm_compute; reflexivity|].
  split; [reflexivity|]. split; [reflexivity|].
  split; [reflexivity|]. split; [reflexivity|].
  split; [by vm_compute|]. split; [by vm_compute|].
  apply (proj1 (@ranking_precedes_rounding patternEngine Sample.nearTie None
                  3 10 _ eq_refl) 0%nat 1%nat); [lia | reflexivity | reflexivity].
Defined.

(** * Further properties of the code *)

Lemma minVotes_bounds (query : Query) :
  getTopRated_minVotes query <= 100 /\ 1 <= getTopRated_minVotes query /\
  1 <= getTopRated_limit query <= 50.
Proof.
  unfold getTopRated_minVotes, getTopRated_limit.
  pose proof (orElse_clamped 1 100 3
                (Js.parseInt (Js.nullish (q_minVotes query) "3") 10)).
  pose proof (orElse_clamped 1 50 10
                (Js.parseInt (Js.nullish (q_limit query) "10") 10)).
  lia.
Qed.

(** ** Means and rounding within bounds *)

Lemma Qsum_bounds (lo hi : Q) (l : list Q) :
  (forall x, x ∈ l -> (lo <= x <= hi)%Q) ->
  (lo * inject_Z (Z.of_nat (length l)) <= Qsum l <=
   hi * inject_Z (Z.of_nat (length l)))%Q.
Proof.
  induction l as [|x l IH]; intros Hall.
  - simpl. split; rewrite Qmult_0_r; apply Qle_refl.
  - destruct (Hall x (list_elem_of_here _ _)) as [Hlo Hhi].
    destruct IH as [IHlo IHhi].
    { intros y Hy. by apply Hall, list_elem_of_further. }
    cbn [length Qsum foldr]. fold (Qsum l).
    rewrite Nat2Z.inj_succ. unfold Z.succ. rewrite inject_Z_plus.
    split.
    + assert (lo * (inject_Z (Z.of_nat (length l)) + inject_Z 1) ==
              lo + lo * inject_Z (Z.of_nat (length l))) as -> by ring.
      by apply Qplus_le_compat.
    + assert (hi * (inject_Z (Z.of_nat (length l)) + inject_Z 1) ==
              hi + hi * inject_Z (Z.of_nat (length l))) as -> by ring.
      by apply Qplus_le_compat.
Qed.

Lemma mean_bounds (lo hi : Q) (l : list Q) :
  l <> [] ->
  (forall x, x ∈ l -> (lo <= x <= hi)%Q) ->
  (lo <= mean l <= hi)%Q.
Proof.
  intros Hne Hall. destruct (Qsum_bounds lo hi l Hall) as [Hlo Hhi].
  assert (0 < inject_Z (Z.of_nat (length l)))%Q as Hpos.
  { destruct l; [done|]. unfold Qlt. simpl. lia. }
  unfold mean. split.
  - by apply Qle_shift_div_l.
  - by apply Qle_shift_div_r.
Qed.

Lemma roundHalfEven_Z (z : Z) : roundHalfEven (inject_Z z) = z.
Proof.
  unfold roundHalfEven. rewrite Qfloor_Z.
  assert (Qcompare (inject_Z z - inject_Z z) (1 # 2) = Lt) as Hlt.
  { rewrite <- Qlt_alt. unfold Qlt. simpl. lia. }
  by rewrite Hlt.
Qed.

(** Rounding to three decimals leaves an integer as it is. *)
Lemma round3_Z (z : Z) : round3 (inject_Z z) == inject_Z z.
Proof.
  unfold round3.
  rewrite (roundHalfEven_comp (inject_Z z * 1000) (inject_Z (z * 1000))).
  - rewrite roundHalfEven_Z. unfold Qeq. simpl. lia.
  - by rewrite inject_Z_mult.
Qed.

(** ** More about the top-rated response *)

Section TopRatedMore.
Context `{E : RegexEngine}.

(** An entry of a resolved response and the ranked document behind it. *)
Lemma response_entry (now : string) (db : Database) (query : Query)
    (resp : TopRated) (e : Row) :
  getTopRated now db query = Resolved resp ->
  e ∈ data resp ->
  exists (genreRegex : option RegExp) (gs : list Group) (g : Group) (m : Movie.t),
    getTopRated_genreRegex query = Resolved genreRegex /\
    ranked db genreRegex (getTopRated_minVotes query) (getTopRated_limit query)
      = Resolved gs /\
    g ∈ gs /\ movieId e = _id g /\
    movies db !! movieId e = Some m /\
    passesGenre genreRegex m = true /\
    title e = g_title g /\
    avgRating e = round3 (mean (scoresOf db (movieId e))) /\
    g_avgRating g == mean (scoresOf db (movieId e)) /\
    voteCount e = g_voteCount g /\
    voteCount e = Z.of_nat (length (scoresOf db (movieId e))) /\
    getTopRated_minVotes query <= voteCount e.
Proof.
  intros (re & gs & Hre & Hgs & Hdata)%getTopRated_Resolved He.
  rewrite Hdata in He. apply list_elem_of_lookup in He as [i Hi].
  apply entry_project_lookup in Hi as (g & Hg & Hid & Ht & Hgen & Havg & Hv).
  apply list_elem_of_lookup_2 in Hg.
  destruct (ranked_elem _ _ _ _ _ g Hgs Hg)
    as (m & Hm & Hp & Hgid & Hgt & Hgg & Hc & Hmean & Hmin).
  exists re, gs, g, m. rewrite Hid, Hgid, Ht, Havg, Hv.
  repeat split; try done.
  by apply round3_comp.
Qed.

(** X1.  No movie occurs twice in a response. *)
Theorem top_rated_movies_are_distinct (now : string) (db : Database)
    (query : Query) (resp : TopRated) :
  getTopRated now db query = Resolved resp ->
  NoDup (movieId <$> data resp).
Proof.
  intros (re & gs & _ & Hgs & ->)%getTopRated_Resolved.
  rewrite <- !list_fmap_compose.
  rewrite (list_fmap_ext _ _id gs); [by eapply ranked_NoDup|].
  intros i g Hg%list_elem_of_lookup_2. simpl.
  by destruct (ranked_elem _ _ _ _ _ g Hgs Hg) as (_ & _ & _ & ? & _).
Qed.

(** X2.  The number of entries is the smaller of the effective limit and
    the number of eligible movies: nothing but the limit keeps an eligible
    movie out. *)
Theorem top_rated_count (now : string) (db : Database) (query : Query)
    (resp : TopRated) (genreRegex : option RegExp) :
  getTopRated now db query = Resolved resp ->
  getTopRated_genreRegex query = Resolved genreRegex ->
  Z.of_nat (length (data resp)) =
  Z.min (getTopRated_limit query)
        (Z.of_nat (length (eligible db genreRegex (getTopRated_minVotes query)))).
Proof.
  intros (re & gs & Hre & Hgs & ->)%getTopRated_Resolved Hre'.
  rewrite Hre in Hre'. injection Hre' as ->.
  rewrite !length_fmap.
  apply ranked_Resolved in Hgs as [Hl ->].
  rewrite length_take. unfold sort.
  rewrite (Permutation_length (merge_sort_Permutation _ _)).
  rewrite <- (length_fmap _id), <- (length_fmap fst (eligible _ _ _)).
  rewrite (Permutation_length (qualified_eligible db genreRegex _
             (proj1 (proj2 (minVotes_bounds query))))).
  lia.
Qed.

End TopRatedMore.

Section TopRatedRanking.
Context `{E : RegexEngine}.

(** X3.  The response holds the top of the ranking: an eligible movie that
    has no entry ranks no earlier than any entry, in the three-level order
    on the unrounded means. *)
Theorem left_out_ranks_lower (now : string) (db : Database) (query : Query)
    (resp : TopRated) (genreRegex : option RegExp) (d : MovieDoc) (A : Row) :
  getTopRated now db query = Resolved resp ->
  getTopRated_genreRegex query = Resolved genreRegex ->
  d ∈ eligible db genreRegex (getTopRated_minVotes query) ->
  (forall e, e ∈ data resp -> movieId e <> d.1) ->
  A ∈ data resp ->
  tieBreak (mean (scoresOf db (movieId A))) (mean (scoresOf db d.1))
    A (entryOf db d).
Proof.
  intros Hresp Hre Hd Hout HA. destruct d as [k m]. simpl in *.
  destruct (response_entry _ _ _ _ _ Hresp HA)
    as (re & gs & g' & mA & Hre' & Hgs & Hg' & HAid & _ & _ & HAt & _ & HAmean
        & HAv & _).
  rewrite Hre in Hre'. injection Hre' as <-.
  apply list_elem_of_filter in Hd as [[Hp Hv] Hm]. simpl in Hp, Hv.
  apply elem_of_map_to_list in Hm. apply Is_true_true in Hp.
  destruct (group_cover db genreRegex k m Hm Hp) as (g & Hg & Hgid).
  { intros Hnil. rewrite Hnil in Hv. simpl in Hv.
    pose proof (minVotes_bounds query). lia. }
  destruct (group_spec _ _ Hg) as (Hgmid & Hgc & _).
  rewrite Hgid, <- (length_fmap j_rating),
    (joined_scores db genreRegex k m Hm Hp) in Hgc.
  assert (g ∈ match_votes (getTopRated_minVotes query)
                (group (match_genre genreRegex
                          (lookup_unwind (movies db) (ratings db))))) as Hq.
  { apply list_elem_of_filter. split; [by rewrite Hgc | done]. }
  destruct (qualified_elem _ _ _ _ Hq)
    as (m' & Hm' & _ & _ & Hgt & _ & _ & Hgmean & _).
  rewrite Hgid in Hm', Hgmean.
  assert (m' = m) as -> by congruence.
  assert (g ∉ gs) as Hnotin.
  { intros Hin. apply (Hout (entry (project g))); [|simpl; congruence].
    destruct (getTopRated_Resolved _ _ _ _ Hresp) as (re2 & gs2 & Hre2 & Hgs2 & ->).
    rewrite Hre in Hre2. injection Hre2 as <-.
    rewrite Hgs in Hgs2. injection Hgs2 as <-.
    by do 2 apply list_elem_of_fmap_2. }
  pose proof (ranked_top _ _ _ _ _ g g' Hgs Hq Hnotin Hg') as Hord.
  apply sortLeb_spec in Hord.
  unfold tieBreak, entryOf. simpl.
  rewrite HAt, HAv, <- HAmean, <- Hgmean, <- Hgc, <- Hgt.
  exact Hord.
Qed.

(** X4.  The query rejects in two cases only: its trimmed genre is not
    empty and is refused by [new RegExp], and the rejection is that syntax
    error; or the genre is accepted and the call of the repository rejects,
    and the rejection is that of the call.  With the repository over
    collections that answer there is the first case only: the effective
    limit is at least 1, which [$limit] does not refuse.  With a repository
    whose data access fails, a query whose genre is accepted is rejected
    with that failure. *)
Theorem getTopRated_rejections (now : string) (query : Query) :
  (forall (ratingRepository : RatingAggregates) (e : Error),
     getTopRated_with now ratingRepository query = Rejected e <->
     (Js.truthy (getTopRated_genre query) = true /\
      newRegExp (getTopRated_genre query) = None /\
      e = SyntaxError (getTopRated_genre query)) \/
     (exists genreRegex : option RegExp,
        getTopRated_genreRegex query = Resolved genreRegex /\
        ratingRepository genreRegex (getTopRated_minVotes query)
          (getTopRated_limit query) = Rejected e)) /\
  (forall db : Database,
     getTopRated now db query =
       getTopRated_with now (getTopRatedAggregates db) query /\
     (forall genreRegex : option RegExp,
        exists rows : list Row,
          getTopRatedAggregates db genreRegex (getTopRated_minVotes query)
            (getTopRated_limit query) = Resolved rows) /\
     (forall e : Error,
        getTopRated now db query = Rejected e <->
        Js.truthy (getTopRated_genre query) = true /\
        newRegExp (getTopRated_genre query) = None /\
        e = SyntaxError (getTopRated_genre query))) /\
  (forall (failure : Error) (genreRegex : option RegExp),
     getTopRated_genreRegex query = Resolved genreRegex ->
     getTopRated_with now (fun _ _ _ => Rejected failure) query =
       Rejected failure).
Proof.
  split; [|split].
  - intros repo e.
    unfold getTopRated_with, getTopRated_genreRegex, compile.
    destruct (Js.truthy (getTopRated_genre query));
      [destruct (newRegExp (getTopRated_genre query)) as [re|]|]; simpl.
    + destruct (repo (Some re) _ _) as [rows|e'] eqn:Hrepo; simpl.
      * split; [done|]. intros [(_ & ? & _)|(re' & [= <-] & Hr)]; [done|].
        congruence.
      * split.
        -- intros [= <-]. right. by exists (Some re).
        -- intros [(_ & ? & _)|(re' & [= <-] & Hr)]; [done | congruence].
    + split.
      * intros [= <-]. by left.
      * intros [(_ & _ & ->)|(re' & ? & _)]; done.
    + destruct (repo None _ _) as [rows|e'] eqn:Hrepo; simpl.
      * split; [done|]. intros [(? & _)|(re' & [= <-] & Hr)]; [done|].
        congruence.
      * split.
        -- intros [= <-]. right. by exists None.
        -- intros [(? & _)|(re' & [= <-] & Hr)]; [done | congruence].
  - intros db. split; [done|]. split.
    + intros genreRegex. unfold getTopRatedAggregates.
      rewrite ranked_resolves by (pose proof (minVotes_bounds query); lia).
      simpl. eauto.
    + intros e.
      unfold getTopRated, getTopRated_genreRegex, compile, getTopRatedAggregates.
      destruct (Js.truthy (getTopRated_genre query));
        [destruct (newRegExp (getTopRated_genre query)) as [re|]|]; simpl;
        rewrite ?ranked_resolves by (pose proof (minVotes_bounds query); lia);
        simpl.
      * split; [done | by intros (_ & ? & _)].
      * split; [by intros [= <-] | by intros (_ & _ & ->)].
      * split; [done | by intros (? & _)].
  - intros failure genreRegex Hre. unfold getTopRated_with. by rewrite Hre.
Qed.

(** X5.  When every score lies between two integers, so does the
    [avgRating] of every entry, after rounding as before it. *)
Theorem avgRating_within_score_range (now : string) (db : Database)
    (query : Query) (resp : TopRated) (lo hi : Z) (e : Row) :
  (forall r, r ∈ ratings db ->
     (inject_Z lo <= Rating.rating r <= inject_Z hi)%Q) ->
  getTopRated now db query = Resolved resp ->
  e ∈ data resp ->
  (inject_Z lo <= avgRating e <= inject_Z hi)%Q.
Proof.
  intros Hrange Hresp He.
  destruct (response_entry _ _ _ _ _ Hresp He)
    as (re & gs & g & m & _ & _ & _ & _ & _ & _ & _ & Havg & _ & _ & Hc & Hmin).
  assert (scoresOf db (movieId e) <> []) as Hne.
  { intros Hnil. rewrite Hnil in Hc. simpl in Hc.
    pose proof (minVotes_bounds query). lia. }
  destruct (mean_bounds (inject_Z lo) (inject_Z hi) _ Hne) as [Hlo Hhi].
  { intros x (r & -> & Hr)%list_elem_of_fmap.
    apply Hrange. by apply list_elem_of_filter in Hr as [_ ?]. }
  rewrite Havg. split.
  - rewrite <- (round3_Z lo). by apply round3_mono.
  - rewrite <- (round3_Z hi). by apply round3_mono.
Qed.

(** X6.  The ratings listed for the movie of an entry are the ratings the
    entry stands for: as many as its [voteCount], all referring to that
    movie, and [avgRating] is the rounded mean of their scores. *)
Theorem getMovieRatings_of_an_entry (now : string) (db : Database)
    (query : Query) (resp : TopRated) (e : Row) :
  getTopRated now db query = Resolved resp ->
  e ∈ data resp ->
  exists rs : list Rating.t,
    getMovieRatings db (movieId e) = Resolved rs /\
    rs <> [] /\
    Z.of_nat (length rs) = voteCount e /\
    (forall r, r ∈ rs -> r ∈ ratings db /\ Rating.movie r = movieId e) /\
    avgRating e = round3 (mean (Rating.rating <$> rs)).
Proof.
  intros Hresp He.
  destruct (response_entry _ _ _ _ _ Hresp He)
    as (re & gs & g & m & _ & _ & _ & _ & _ & _ & _ & Havg & _ & _ & Hc & Hmin).
  assert (findRatings db (fun r => bool_decide (Rating.movie r = movieId e)) =
          filter (fun r => Rating.movie r = movieId e) (ratings db)) as Hfind.
  { unfold findRatings. apply list_filter_iff. intros r.
    by rewrite bool_decide_spec. }
  eexists. split; [reflexivity|]. rewrite Hfind.
  unfold scoresOf in Havg, Hc. rewrite length_fmap in Hc.
  split; [|split; [|split]].
  - intros Hnil. rewrite Hnil in Hc. simpl in Hc.
    pose proof (minVotes_bounds query). lia.
  - done.
  - intros r [Hm Hr]%list_elem_of_filter. done.
  - done.
Qed.

End TopRatedRanking.

(** X7.  Ratings of a movie that does not exist are listed by
    [getMovieRatings] all the same, while no entry of a top-rated response
    stands for them. *)
Theorem getMovieRatings_ignores_the_movies `{E : RegexEngine}
    (now : string) (db : Database) (query : Query) (resp : TopRated)
    (r : Rating.t) :
  r ∈ ratings db ->
  movies db !! Rating.movie r = None ->
  getTopRated now db query = Resolved resp ->
  (exists rs, getMovieRatings db (Rating.movie r) = Resolved rs /\ r ∈ rs) /\
  (forall e, e ∈ data resp -> movieId e <> Rating.movie r).
Proof.
  intros Hr Hnone Hresp. split.
  - eexists. split; [reflexivity|].
    unfold findRatings. apply list_elem_of_filter. split; [|done].
    by apply bool_decide_pack.
  - intros e He Heq.
    destruct (response_entry _ _ _ _ _ Hresp He)
      as (_ & _ & _ & m & _ & _ & _ & _ & Hm & _).
    congruence.
Qed.

(** The two sample responses are what the query computes. *)
Lemma sample_response :
  @getTopRated patternEngine Sample.now Sample.threeMovies Sample.noParams =
  Resolved Sample.response.
Proof. by vm_compute. Qed.

Lemma sample_responseTop1 :
  @getTopRated patternEngine Sample.now Sample.threeMovies
    (Sample.withLimit "1") = Resolved Sample.responseTop1.
Proof. by vm_compute. Qed.

Lemma sample_scores_in_range (r : Rating.t) :
  r ∈ ratings Sample.threeMovies ->
  (inject_Z 0 <= Rating.rating r <= inject_Z 5)%Q.
Proof.
  intros Hr. apply list_elem_of_In in Hr. vm_compute in Hr.
  repeat (destruct Hr as [<-|Hr]; [split; discriminate|]). done.
Qed.

Lemma getTopRated_rejections_witness :
  @getTopRated_with patternEngine Sample.now
    (fun _ _ _ => Rejected (MongoServerError "the store is unreachable"))
    Sample.noParams =
  Rejected (MongoServerError "the store is unreachable").
Proof.
  exact (proj2 (proj2 (@getTopRated_rejections patternEngine Sample.now
                         Sample.noParams))
           (MongoServerError "the store is unreachable") None eq_refl).
Defined.

Lemma top_rated_movies_are_distinct_witness :
  NoDup (movieId <$> data Sample.response).
Proof.
  exact (@top_rated_movies_are_distinct patternEngine Sample.now
           Sample.threeMovies Sample.noParams Sample.response sample_response).
Defined.

Lemma top_rated_count_witness :
  Z.of_nat (length (data Sample.responseTop1)) =
  Z.min (getTopRated_limit (Sample.withLimit "1"))
    (Z.of_nat (length (@eligible patternEngine Sample.threeMovies None
                         (getTopRated_minVotes (Sample.withLimit "1"))))).
Proof.
  exact (@top_rated_count patternEngine Sample.now Sample.threeMovies
           (Sample.withLimit "1") Sample.responseTop1 None
           sample_responseTop1 eq_refl).
Defined.

Lemma left_out_ranks_lower_witness :
  tieBreak (mean (scoresOf Sample.threeMovies "M1"))
           (mean (scoresOf Sample.threeMovies "M2"))
    Sample.rowM1
    (entryOf Sample.threeMovies ("M2", Sample.film "Beta" "Action/Adventure")).
Proof.
  apply (@left_out_ranks_lower patternEngine Sample.now Sample.threeMovies
           (Sample.withLimit "1") Sample.responseTop1 None
           ("M2", Sample.film "Beta" "Action/Adventure") Sample.rowM1
           sample_responseTop1 eq_refl).
  - apply eligible_elem; [reflexivity | reflexivity | by vm_compute].
  - intros e ->%list_elem_of_singleton. discriminate.
  - apply list_elem_of_here.
Defined.

Lemma avgRating_within_score_range_witness :
  (inject_Z 0 <= avgRating Sample.rowM1 <= inject_Z 5)%Q.
Proof.
  exact (@avgRating_within_score_range patternEngine Sample.now
           Sample.threeMovies Sample.noParams Sample.response 0 5 Sample.rowM1
           sample_scores_in_range sample_response (list_elem_of_here _ _)).
Defined.

Lemma getMovieRatings_of_an_entry_witness :
  exists rs : list Rating.t,
    getMovieRatings Sample.threeMovies "M1" = Resolved rs /\
    rs <> [] /\
    Z.of_nat (length rs) = 3 /\
    (forall r, r ∈ rs -> r ∈ ratings Sample.threeMovies /\ Rating.movie r = "M1") /\
    (4667 # 1000)%Q = round3 (mean (Rating.rating <$> rs)).
Proof.
  exact (@getMovieRatings_of_an_entry patternEngine Sample.now
           Sample.threeMovies Sample.noParams Sample.response Sample.rowM1
           sample_response (list_elem_of_here _ _)).
Defined.

Lemma getMovieRatings_ignores_the_movies_witness :
  (exists rs, getMovieRatings Sample.threeMovies "M9" = Resolved rs /\
              Rating.mk "M9" 1 ∈ rs) /\
  (forall e, e ∈ data Sample.response -> movieId e <> "M9").
Proof.
  apply (@getMovieRatings_ignores_the_movies patternEngine Sample.now
           Sample.threeMovies Sample.noParams Sample.response
           (Rating.mk "M9" 1)).
  - apply list_elem_of_In. vm_compute. tauto.
  - reflexivity.
  - exact sample_response.
Defined.

(** ** The listing and the plain rating queries *)

(** X8.  A genre that [new RegExp] refuses rejects the listing with that
    syntax error, whatever the repository would answer. *)
Theorem getAllMovies_rejects_bad_pattern `{E : RegexEngine}
    (repo : MovieRepository) (query : Query) (g : string) :
  q_genre query = Some g ->
  Js.truthy g = true ->
  newRegExp g = None ->
  getAllMovies repo query = Rejected (SyntaxError g).
Proof.
  intros Hg Ht Hnew. unfold getAllMovies, getAllMovies_filter, compile.
  by rewrite Hg, Ht, Hnew.
Qed.

Lemma getAllMovies_rejects_bad_pattern_witness :
  @getAllMovies patternEngine (mongoMovieRepository Sample.threeMovies)
    (Sample.withGenre "(") = Rejected (SyntaxError "(").
Proof.
  exact (@getAllMovies_rejects_bad_pattern patternEngine
           (mongoMovieRepository Sample.threeMovies) (Sample.withGenre "(")
           "(" eq_refl eq_refl eq_refl).
Defined.

(** X9.  The two operations read a genre of white space differently: the
    top-rated query trims it and applies no filter, the listing compiles it
    as it stands and filters by it. *)
Theorem blank_genre_filters_the_listing `{E : RegexEngine}
    (query : Query) (s : string) (re : RegExp) :
  q_genre query = Some s ->
  blank s = true ->
  Js.truthy s = true ->
  newRegExp s = Some re ->
  getTopRated_genreRegex query = Resolved None /\
  getAllMovies_filter query =
    Resolved {| f_genre := Some re;
                f_release_year := getAllMovies_year query |}.
Proof.
  intros Hg Hb Ht Hnew. split.
  - unfold getTopRated_genreRegex, getTopRated_genre. rewrite Hg. simpl.
    by rewrite (trim_blank s Hb).
  - unfold getAllMovies_filter, compile. by rewrite Hg, Ht, Hnew.
Qed.

Lemma blank_genre_filters_the_listing_witness :
  @getTopRated_genreRegex patternEngine (Sample.withGenre "  ") = Resolved None /\
  @getAllMovies_filter patternEngine (Sample.withGenre "  ") =
    Resolved {| f_genre := Some (Pattern.literal "  " : @RegExp patternEngine);
                f_release_year := None |}.
Proof.
  exact (@blank_genre_filters_the_listing patternEngine
           (Sample.withGenre "  ") "  " (Pattern.literal "  ")
           eq_refl eq_refl eq_refl eq_refl).
Defined.

Lemma orDefault_positive (n d : N) : (0 < n)%N -> orDefault (Some n) d = n.
Proof. destruct n; [lia | done]. Qed.

Lemma orDefault_zero (n : N) : orDefault (Some n) 0 = n.
Proof. by destruct n. Qed.

(** X10.  A page of ratings holds documents of the collection that satisfy
    the filter, in their order, and their number is the smaller of the
    effective limit and of what the count leaves after the effective skip;
    without a limit, or with a limit of 0, that is at most 10. *)
Theorem getAllRatings_page (db : Database) (filter : Rating.t -> bool)
    (options : CursorOptions) :
  exists (rs : list Rating.t) (count : N),
    getAllRatings db filter options = Resolved rs /\
    countRatings db filter = Resolved count /\
    N.of_nat (length rs) =
      N.min (orDefault (c_limit options) 10)
            (count - orDefault (c_skip options) 0)%N /\
    rs `sublist_of` ratings db /\
    (forall r, r ∈ rs -> filter r = true) /\
    (c_limit options = None \/ c_limit options = Some 0%N ->
     (length rs <= 10)%nat).
Proof.
  eexists _, _. split; [reflexivity|]. split; [reflexivity|].
  split; [|split; [|split]].
  - rewrite length_take, length_drop.
    generalize (orDefault (c_limit options) 10)
      (orDefault (c_skip options) 0) (length (findRatings db filter)).
    intros a b c. lia.
  - etrans; [apply sublist_take|]. etrans; [apply sublist_drop|].
    apply sublist_filter.
  - intros r Hr%subseteq_take%subseteq_drop.
    apply list_elem_of_filter in Hr as [Hf _]. by apply Is_true_true.
  - intros Hl. rewrite length_take.
    destruct Hl as [-> | ->]; cbn [orDefault];
      change (N.to_nat 10) with 10%nat; lia.
Qed.

(** X11.  Consecutive pages of [n] ratings lose nothing and repeat nothing:
    the first [p] pages, one after the other, are the first [p * n]
    matching ratings, and all of them once [p * n] reaches their count. *)
Theorem getAllRatings_pages_cover (db : Database) (filter : Rating.t -> bool)
    (n : N) (p : nat) :
  (0 < n)%N ->
  concat ((fun k => resolved (getAllRatings db filter
                                {| c_skip := Some (N.of_nat k * n)%N;
                                   c_limit := Some n |}))
          <$> seq 0 p)
  = take (p * N.to_nat n) (findRatings db filter) /\
  ((length (findRatings db filter) <= p * N.to_nat n)%nat ->
   concat ((fun k => resolved (getAllRatings db filter
                                 {| c_skip := Some (N.of_nat k * n)%N;
                                    c_limit := Some n |}))
           <$> seq 0 p)
   = findRatings db filter).
Proof.
  intros Hn.
  assert (forall k,
    resolved (getAllRatings db filter
                {| c_skip := Some (N.of_nat k * n)%N; c_limit := Some n |})
    = take (N.to_nat n) (drop (k * N.to_nat n) (findRatings db filter))) as Hpage.
  { intros k. unfold getAllRatings, resolved. cbn [c_skip c_limit].
    rewrite (orDefault_positive n 10 Hn), orDefault_zero. f_equal. f_equal. lia. }
  assert (concat ((fun k => resolved (getAllRatings db filter
                                {| c_skip := Some (N.of_nat k * n)%N;
                                   c_limit := Some n |}))
          <$> seq 0 p)
  = take (p * N.to_nat n) (findRatings db filter)) as Hcover.
  { set (page := fun k => resolved (getAllRatings db filter
                                {| c_skip := Some (N.of_nat k * n)%N;
                                   c_limit := Some n |})).
    induction p as [|p IH]; [done|].
    rewrite seq_S, fmap_app, concat_app, IH.
    change (concat (page <$> [(0 + p)%nat])) with (page p ++ []).
    rewrite app_nil_r. unfold page at 1. rewrite (Hpage p), take_take_drop.
    f_equal. lia. }
  split; [exact Hcover|].
  intros Hall. rewrite Hcover. by apply take_ge.
Qed.

Lemma getAllRatings_pages_cover_witness :
  concat ((fun k => resolved (getAllRatings Sample.threeMovies (fun _ => true)
                                {| c_skip := Some (N.of_nat k * 4)%N;
                                   c_limit := Some 4%N |}))
          <$> seq 0 3)
  = findRatings Sample.threeMovies (fun _ => true).
Proof.
  apply (proj2 (getAllRatings_pages_cover Sample.threeMovies (fun _ => true)
                  4 3 eq_refl)).
  vm_compute. lia.
Defined.

(** ** The error handler *)

(** X12.  In production the handler answers with the message alone: the
    response does not depend on what else the error holds; an error without
    a status is answered by 500 and the fixed text, whatever its message;
    and the status code is never 0 and is the same in both modes. *)
Theorem production_response_hides_the_error (err : Server.HttpError)
    (d : list (string * string)) :
  Server.errorHandler true err =
  Server.errorHandler true {| Server.status := Server.status err;
                              Server.message := Server.message err;
                              Server.detail := d |} /\
  (Server.noStatus err = true ->
   Server.errorHandler true err =
   {| Server.r_status := 500;
      Server.r_body := Server.ErrorOnly "Internal Server Error" |}) /\
  (Server.noStatus err = false ->
   Server.errorHandler true err =
   {| Server.r_status := default 0 (Server.status err);
      Server.r_body := Server.ErrorOnly (Server.message err) |}) /\
  Server.r_status (Server.errorHandler true err) <> 0 /\
  Server.r_status (Server.errorHandler false err) =
  Server.r_status (Server.errorHandler true err).
Proof.
  unfold Server.errorHandler, Server.noStatus.
  destruct err as [[[|p|p]|] msg det]; simpl; repeat split; done.
Qed.

(** ** The base URL *)

Lemma append_cons (c : ascii) (s t : string) :
  String c s +:+ t = String c (s +:+ t).
Proof. reflexivity. Qed.

Lemma strip_slash_back (s : string) :
  endsWithSlash s = true -> App.stripTrailingSlash s +:+ "/" = s.
Proof.
  induction s as [|c s IH]; [done|].
  destruct s as [|c' s'].
  - simpl. intros Hc. rewrite Hc. apply Ascii.eqb_eq in Hc. by subst.
  - intros Hs. change (String c (App.stripTrailingSlash (String c' s') +:+ "/")
                       = String c (String c' s')).
    f_equal. by apply IH.
Qed.

Lemma strip_no_slash (s : string) :
  endsWithSlash s = false -> App.stripTrailingSlash s = s.
Proof.
  induction s as [|c s IH]; [done|].
  destruct s as [|c' s'].
  - simpl. by intros ->.
  - intros Hs. change (String c (App.stripTrailingSlash (String c' s'))
                       = String c (String c' s')).
    f_equal. by apply IH.
Qed.

Lemma append_slash_ends (s : string) : endsWithSlash (s +:+ "/") = true.
Proof.
  induction s as [|c s IH]; [done|].
  rewrite append_cons. destruct s as [|c' s']; [done|].
  rewrite append_cons in *. exact IH.
Qed.

(** X13.  The base URL ends with a slash; a value that already ends with
    one is kept as it is, any other gets one appended; and normalising
    twice changes nothing. *)
Theorem baseURL_normalises (BASE_URL : option string) :
  endsWithSlash (App.baseURL BASE_URL) = true /\
  (forall s, BASE_URL = Some s -> endsWithSlash s = true ->
     App.baseURL BASE_URL = s) /\
  (forall s, BASE_URL = Some s -> endsWithSlash s = false ->
     App.baseURL BASE_URL = s +:+ "/") /\
  (BASE_URL = None -> App.baseURL BASE_URL = "/") /\
  App.baseURL (Some (App.baseURL BASE_URL)) = App.baseURL BASE_URL.
Proof.
  unfold App.baseURL. split; [apply append_slash_ends|].
  split; [|split; [|split]].
  - intros s -> Hs. simpl. by apply strip_slash_back.
  - intros s -> Hs. simpl. by rewrite strip_no_slash.
  - by intros ->.
  - simpl. apply strip_slash_back, append_slash_ends.
Qed.

(** ** The chart script and the service *)

Lemma trimEnd_idemp (s : string) : Js.trimEnd (Js.trimEnd s) = Js.trimEnd s.
Proof.
  induction s as [|c s IH]; [done|].
  simpl. destruct (Js.trimEnd s) as [|c' t] eqn:Ht.
  - destruct (Js.isWhiteSpace c) eqn:Hc; simpl; [done | by rewrite Hc].
  - change (Js.trimEnd (String c (String c' t)))
      with (match Js.trimEnd (String c' t) with
            | EmptyString =>
                if Js.isWhiteSpace c then EmptyString else String c EmptyString
            | u => String c u
            end).
    by rewrite IH.
Qed.

Lemma trimStart_trimEnd (s : string) :
  Js.trimStart (Js.trimEnd (Js.trimStart s)) = Js.trimEnd (Js.trimStart s).
Proof.
  induction s as [|c s IH]; [done|].
  simpl. destruct (Js.isWhiteSpace c) eqn:Hc; [exact IH|].
  simpl. destruct (Js.trimEnd s); simpl; rewrite ?Hc; simpl; by rewrite ?Hc.
Qed.

(** Trimming twice is trimming once. *)
Lemma trim_idemp (s : string) : Js.trim (Js.trim s) = Js.trim s.
Proof.
  unfold Js.trim. by rewrite trimStart_trimEnd, trimEnd_idemp.
Qed.

(** The query object that the parameters of the chart script give at the
    HTTP boundary. *)
Lemma chart_query (value : string) :
  Api.query (ChartClient.queryParams value) =
  {| q_genre := if Js.truthy (Js.trim value) then Some (Js.trim value) else None;
     q_year := None;
     q_page := None;
     q_limit := Some "10";
     q_minVotes := Some "3" |}.
Proof.
  unfold ChartClient.queryParams. by destruct (Js.truthy (Js.trim value)).
Qed.

(** X14.  Whatever is selected, the parameters that the chart script sends,
    read at the HTTP boundary of the specification, are answered for
    [minVotes] 3, [limit] 10 and the trimmed selection as genre; a blank
    selection sends no genre and applies no filter; the response has no
    more entries than the chart has colours, each with at least 3 votes. *)
Theorem chart_request_is_bounded `{E : RegexEngine} (value : string)
    (now : string) (db : Database) (resp : TopRated) :
  getTopRated now db (Api.query (ChartClient.queryParams value)) = Resolved resp ->
  Api.param "minVotes" (ChartClient.queryParams value) = Some "3" /\
  Api.param "limit" (ChartClient.queryParams value) = Some "10" /\
  (blank value = true ->
   Api.param "genre" (ChartClient.queryParams value) = None) /\
  getTopRated_minVotes (Api.query (ChartClient.queryParams value)) = 3 /\
  getTopRated_limit (Api.query (ChartClient.queryParams value)) = 10 /\
  getTopRated_genre (Api.query (ChartClient.queryParams value)) = Js.trim value /\
  (blank value = true ->
   getTopRated_genreRegex (Api.query (ChartClient.queryParams value))
     = Resolved None) /\
  (length (data resp) <= length ChartClient.chartColors)%nat /\
  (forall e, e ∈ data resp -> 3 <= voteCount e).
Proof.
  intros Hresp.
  pose proof (chart_query value) as Hq.
  assert (Api.param "minVotes" (ChartClient.queryParams value) = Some "3") as Hmv.
  { by injection Hq. }
  assert (Api.param "limit" (ChartClient.queryParams value) = Some "10") as Hlim.
  { by injection Hq. }
  assert (blank value = true ->
          Api.param "genre" (ChartClient.queryParams value) = None) as Hblank.
  { intros Hb. injection Hq as -> _ _ _ _. by rewrite (trim_blank _ Hb). }
  rewrite Hq in *.
  set (q := {| q_genre := _ |}) in *.
  assert (getTopRated_genre q = Js.trim value) as Hgenre.
  { unfold getTopRated_genre, q. simpl.
    destruct (Js.truthy (Js.trim value)) eqn:Ht; simpl.
    - apply trim_idemp.
    - by destruct (Js.trim value). }
  split; [done|]. split; [done|]. split; [done|].
  split; [done|]. split; [done|]. split; [done|]. split; [|split].
  - intros Hb. unfold getTopRated_genreRegex. rewrite Hgenre.
    by rewrite (trim_blank _ Hb).
  - destruct (getTopRated_Resolved _ _ _ _ Hresp) as (re & gs & _ & Hgs & ->).
    rewrite !length_fmap.
    apply ranked_Resolved in Hgs as [_ ->]. rewrite length_take.
    change (getTopRated_limit q) with 10.
    change (length ChartClient.chartColors) with 10%nat. lia.
  - intros e He.
    destruct (response_entry _ _ _ _ _ Hresp He)
      as (_ & _ & _ & _ & _ & _ & _ & _ & _ & _ & _ & _ & _ & _ & _ & Hmin).
    exact Hmin.
Qed.

Lemma chart_request_is_bounded_witness :
  (length (data Sample.response) <= length ChartClient.chartColors)%nat /\
  (forall e, e ∈ data Sample.response -> 3 <= voteCount e).
Proof.
  destruct (@chart_request_is_bounded patternEngine "  " Sample.now
              Sample.threeMovies Sample.response)
    as (_ & _ & _ & _ & _ & _ & _ & Hlen & Hvotes).
  - by vm_compute.
  - split; [exact Hlen | exact Hvotes].
Defined.

(** ** The chart script that aggregates in the browser *)

(** *** The loop over the pages *)

Lemma fetchLoop_spec (page : nat) (acc : list ClientMain.RatingItem)
    (answers : list ClientMain.Answer) :
  ClientMain.fetchLoop page acc answers =
    if hasFailure answers ||
       (ClientMain.MAX_PAGES + 1 - page <=? length (pagesBefore answers))%nat
    then Some (acc ++ concat (take (ClientMain.MAX_PAGES + 1 - page)
                                (pagesBefore answers)))
    else None.
Proof.
  unfold ClientMain.MAX_PAGES.
  revert page acc. induction answers as [|a rest IH]; intros page acc.
  - cbn [ClientMain.fetchLoop hasFailure pagesBefore length orb].
    unfold ClientMain.MAX_PAGES.
    destruct (Nat.leb_spec page 5) as [Hle|Hgt].
    + destruct (Nat.leb_spec (5 + 1 - page) 0); [lia | done].
    + replace (5 + 1 - page)%nat with 0%nat by lia. simpl.
      by rewrite app_nil_r.
  - cbn [ClientMain.fetchLoop]. unfold ClientMain.MAX_PAGES.
    destruct (Nat.leb_spec page 5) as [Hle|Hgt].
    + destruct a as [|data|]; cbn [hasFailure pagesBefore].
      * apply IH.
      * rewrite IH. cbn [length].
        replace (5 + 1 - page)%nat with (S (5 + 1 - S page)) by lia.
        cbn [take concat]. rewrite <- app_assoc.
        destruct (hasFailure rest); [done|]. cbn [orb].
        destruct (Nat.leb_spec (5 + 1 - S page) (length (pagesBefore rest)));
          destruct (Nat.leb_spec (S (5 + 1 - S page))
                      (S (length (pagesBefore rest)))); try lia; done.
      * cbn [orb take]. destruct (5 + 1 - page)%nat; simpl; by rewrite app_nil_r.
    + replace (5 + 1 - page)%nat with 0%nat by lia.
      rewrite orb_true_r. simpl. by rewrite app_nil_r.
Qed.

(** X15.  The loop hands on the ratings of the pages it was served before
    the first failure, of five pages at most, in order; answers of status
    429 leave no trace in them.  It is still asking when the answers hold
    no failure and fewer than five pages: after a 429 it asks again, however
    often that is the answer. *)
Theorem fetchRatings_characterised (answers : list ClientMain.Answer) :
  ClientMain.fetchRatings answers =
    (if hasFailure answers || (5 <=? length (pagesBefore answers))%nat
     then Some (concat (take 5 (pagesBefore answers)))
     else None) /\
  (forall n, ClientMain.fetchRatings
               (replicate n ClientMain.TooManyRequests ++ answers) =
             ClientMain.fetchRatings answers) /\
  (forall n, ClientMain.fetchRatings
               (replicate n ClientMain.TooManyRequests) = None).
Proof.
  assert (forall n l, pagesBefore (replicate n ClientMain.TooManyRequests ++ l)
                      = pagesBefore l) as Hp.
  { intros n l. induction n; [done | exact IHn]. }
  assert (forall n l, hasFailure (replicate n ClientMain.TooManyRequests ++ l)
                      = hasFailure l) as Hf.
  { intros n l. induction n; [done | exact IHn]. }
  unfold ClientMain.fetchRatings. split; [|split].
  - by rewrite fetchLoop_spec.
  - intros n. by rewrite !fetchLoop_spec, Hp, Hf.
  - intros n. rewrite <- (app_nil_r (replicate _ _)).
    by rewrite fetchLoop_spec, Hp, Hf.
Qed.

(** *** The last segment of a link *)

Lemma hasSlash_app (s t : string) :
  ClientMain.hasSlash (s +:+ t) = ClientMain.hasSlash s || ClientMain.hasSlash t.
Proof.
  induction s as [|c s IH]; [done|].
  rewrite append_cons. simpl. rewrite IH. by rewrite orb_assoc.
Qed.

(** X16.  The id that the script cuts out of a link is the one the link
    was built with: whatever precedes the last slash is dropped, and an id
    without a slash comes back as it is. *)
Theorem lastSegment_of_link (prefix id : string) :
  ClientMain.hasSlash id = false ->
  ClientMain.lastSegment (prefix +:+ "/" +:+ id) = id /\
  ClientMain.lastSegment id = id.
Proof.
  intros Hid.
  assert (ClientMain.lastSegment id = id) as Hself.
  { destruct id as [|c id]; [done|].
    unfold ClientMain.lastSegment. by rewrite Hid. }
  split; [|done].
  induction prefix as [|c prefix IH].
  - change ("" +:+ "/" +:+ id) with (String "/" id).
    cbn [ClientMain.lastSegment ClientMain.hasSlash]. simpl. exact Hself.
  - rewrite append_cons. cbn [ClientMain.lastSegment].
    replace (ClientMain.hasSlash (String c (prefix +:+ "/" +:+ id))) with true;
      [exact IH|].
    symmetry. cbn [ClientMain.hasSlash]. rewrite hasSlash_app.
    change (ClientMain.hasSlash ("/" +:+ id)) with true.
    by rewrite !orb_true_r.
Qed.

Lemma lastSegment_of_link_witness :
  ClientMain.lastSegment ("/api/v1/movies" +:+ "/" +:+ "65f0c1a2") = "65f0c1a2" /\
  ClientMain.lastSegment "65f0c1a2" = "65f0c1a2".
Proof. exact (lastSegment_of_link "/api/v1/movies" "65f0c1a2" eq_refl). Defined.

(** *** Grouping the ratings *)

Lemma push_keys_old (m : ClientMain.RatingMap) (k : string) (x : Q) :
  k ∈ (m.*1) -> (ClientMain.push m k x).*1 = m.*1.
Proof.
  induction m as [|[k0 l0] m IH]; intros Hin.
  - by apply elem_of_nil in Hin.
  - cbn [ClientMain.push]. destruct (String.eqb_spec k0 k) as [->|Hne]; [done|].
    rewrite !fmap_cons, IH; [done|].
    rewrite fmap_cons in Hin. apply elem_of_cons in Hin as [?|?]; [|done].
    simpl in *. congruence.
Qed.

Lemma push_keys_new (m : ClientMain.RatingMap) (k : string) (x : Q) :
  k ∉ (m.*1) -> (ClientMain.push m k x).*1 = m.*1 ++ [k].
Proof.
  induction m as [|[k0 l0] m IH]; intros Hnin; [done|].
  cbn [ClientMain.push]. rewrite fmap_cons in Hnin.
  apply not_elem_of_cons in Hnin as [Hne Hnin]. simpl in Hne.
  destruct (String.eqb_spec k0 k) as [->|_]; [done|].
  by rewrite !fmap_cons, IH.
Qed.

Lemma push_elem (m : ClientMain.RatingMap) (k : string) (x : Q)
    (k' : string) (l' : list Q) :
  NoDup (m.*1) ->
  (k', l') ∈ ClientMain.push m k x ->
  (k' <> k /\ (k', l') ∈ m) \/
  (k' = k /\ ((exists l, (k, l) ∈ m /\ l' = l ++ [x]) \/
              ((k ∉ m.*1) /\ l' = [x]))).
Proof.
  induction m as [|[k0 l0] m IH]; intros Hnd Hin.
  - apply list_elem_of_singleton in Hin as [= -> ->].
    right. split; [done|]. right. split; [apply not_elem_of_nil | done].
  - rewrite fmap_cons in Hnd. apply NoDup_cons in Hnd as [Hk0 Hnd].
    simpl in Hk0. cbn [ClientMain.push] in Hin.
    destruct (String.eqb_spec k0 k) as [->|Hne].
    + apply elem_of_cons in Hin as [[= -> ->]|Hin].
      * right. split; [done|]. left. exists l0.
        split; [apply list_elem_of_here | done].
      * left. split; [|by apply list_elem_of_further].
        intros ->. apply Hk0. by apply (list_elem_of_fmap_2 fst) in Hin.
    + apply elem_of_cons in Hin as [[= -> ->]|Hin].
      * left. split; [done | apply list_elem_of_here].
      * destruct (IH Hnd Hin) as [[? ?]|[-> [(l & Hl & ->)|[Hnin ->]]]].
        -- left. split; [done | by apply list_elem_of_further].
        -- right. split; [done|]. left. exists l.
           split; [by apply list_elem_of_further | done].
        -- right. split; [done|]. right. split; [|done].
           rewrite fmap_cons. apply not_elem_of_cons. by split.
Qed.

Lemma scoresFor_snoc (k : string) (allRatings : list ClientMain.RatingItem)
    (r : ClientMain.RatingItem) :
  scoresFor k (allRatings ++ [r]) =
  scoresFor k allRatings ++
  (if decide (ClientMain.lastSegment (ClientMain.movie r) = k)
   then [ClientMain.rating r] else []).
Proof.
  unfold scoresFor. rewrite filter_app, fmap_app. f_equal.
  rewrite filter_cons, filter_nil. by destruct (decide _).
Qed.

Lemma push_Grouped (allRatings : list ClientMain.RatingItem)
    (m : ClientMain.RatingMap) (r : ClientMain.RatingItem) :
  Grouped allRatings m ->
  Grouped (allRatings ++ [r])
    (ClientMain.push m (ClientMain.lastSegment (ClientMain.movie r))
       (ClientMain.rating r)).
Proof.
  intros (Hnd & Hcover & Helem).
  set (k := ClientMain.lastSegment (ClientMain.movie r)).
  assert (k ∉ (m.*1) -> scoresFor k allRatings = []) as Hfresh.
  { intros Hnin. unfold scoresFor.
    replace (filter (fun r' => ClientMain.lastSegment (ClientMain.movie r') = k)
               allRatings) with (@nil ClientMain.RatingItem); [done|].
    symmetry. apply elem_of_nil_inv. intros r' [Hk Hr']%list_elem_of_filter.
    apply Hnin. rewrite <- Hk. by apply Hcover. }
  split; [|split].
  - destruct (decide (k ∈ m.*1)) as [Hin|Hnin].
    + by rewrite push_keys_old.
    + rewrite push_keys_new by done. apply NoDup_app.
      repeat split; [done | | apply NoDup_singleton].
      by intros k' Hk' ->%list_elem_of_singleton.
  - intros r' [Hr'|Hr']%elem_of_app.
    + destruct (decide (k ∈ m.*1)) as [Hin|Hnin].
      * rewrite push_keys_old by done. by apply Hcover.
      * rewrite push_keys_new by done. apply elem_of_app. left. by apply Hcover.
    + apply list_elem_of_singleton in Hr' as ->. fold k.
      destruct (decide (k ∈ m.*1)) as [Hin|Hnin].
      * by rewrite push_keys_old.
      * rewrite push_keys_new by done. apply elem_of_app. right.
        apply list_elem_of_here.
  - intros k' l' Hin. rewrite scoresFor_snoc. fold k.
    destruct (push_elem _ _ _ _ _ Hnd Hin)
      as [[Hne Hm]|[-> [(l & Hl & ->)|[Hnin ->]]]].
    + rewrite decide_False by done. rewrite app_nil_r. by apply Helem.
    + rewrite decide_True by done.
      destruct (Helem _ _ Hl) as [-> _]. split; [done|].
      by destruct (scoresFor k allRatings).
    + rewrite decide_True by done. by rewrite (Hfresh Hnin).
Qed.

Lemma groupFrom_Grouped (pre rest : list ClientMain.RatingItem)
    (m m' : ClientMain.RatingMap) :
  Grouped pre m ->
  ClientMain.groupFrom m rest = ClientMain.Done m' ->
  Grouped (pre ++ rest) m'.
Proof.
  revert pre m. induction rest as [|r rest IH]; intros pre m Hg Hdone.
  - injection Hdone as <-. by rewrite app_nil_r.
  - cbn [ClientMain.groupFrom] in Hdone.
    destruct (bool_decide _); [done|].
    rewrite (cons_middle r pre rest), app_assoc.
    eapply IH; [|exact Hdone]. by apply push_Grouped.
Qed.

Lemma groupFrom_TypeError (m : ClientMain.RatingMap)
    (rest : list ClientMain.RatingItem) :
  ClientMain.groupFrom m rest = ClientMain.TypeError <->
  exists r, r ∈ rest /\
            ClientMain.lastSegment (ClientMain.movie r) ∈ ClientMain.inherited.
Proof.
  revert m. induction rest as [|r rest IH]; intros m.
  - split; [done|]. intros (r & Hr & _). by apply elem_of_nil in Hr.
  - cbn [ClientMain.groupFrom]. case_bool_decide as Hin.
    + split; [|done]. intros _. exists r. split; [apply list_elem_of_here | done].
    + rewrite IH. split.
      * intros (r' & Hr' & Hk). exists r'.
        split; [by apply list_elem_of_further | done].
      * intros (r' & [->|Hr']%elem_of_cons & Hk); [done|]. by exists r'.
Qed.

Lemma groupFrom_no_FetchError (m : ClientMain.RatingMap)
    (rest : list ClientMain.RatingItem) :
  ClientMain.groupFrom m rest <> ClientMain.FetchError.
Proof.
  revert m. induction rest as [|r rest IH]; intros m; [done|].
  cbn [ClientMain.groupFrom]. destruct (bool_decide _); [done | apply IH].
Qed.

Lemma Grouped_nil : Grouped [] [].
Proof.
  split; [constructor|]. split.
  - intros r Hr. by apply elem_of_nil in Hr.
  - intros k l Hin. by apply elem_of_nil in Hin.
Qed.

(** [Object.entries] lists every property once. *)
Lemma entries_Permutation (m : ClientMain.RatingMap) :
  ClientMain.entries m ≡ₚ m.
Proof.
  unfold ClientMain.entries. rewrite merge_sort_Permutation.
  rewrite (list_filter_iff (fun e : string * list Q => ClientMain.arrayIndex e.1 = None)
             (fun e => ~ is_Some (ClientMain.arrayIndex e.1))).
  - apply filter_app_complement.
  - intros e. apply eq_None_not_Some.
Qed.

(** *** Averages, movie data and the ranking *)

Lemma foldl_Qplus (a : Q) (l : list Q) : foldl Qplus a l == a + Qsum l.
Proof.
  revert a. induction l as [|x l IH]; intros a; simpl.
  - ring.
  - rewrite IH. fold (Qsum l). ring.
Qed.

Lemma average_mean (l : list Q) : ClientMain.average l == mean l.
Proof.
  unfold ClientMain.average, mean. rewrite foldl_Qplus. by rewrite Qplus_0_l.
Qed.

Lemma enrich_Done (movieData : string -> option ClientMain.MovieData)
    (es : list (string * list Q)) (rows : list ClientMain.Row) :
  ClientMain.enrich movieData es = ClientMain.Done rows ->
  ClientMain.movieId <$> rows = es.*1 /\
  (forall row, row ∈ rows ->
     exists scores d,
       (ClientMain.movieId row, scores) ∈ es /\
       movieData (ClientMain.movieId row) = Some d /\
       ClientMain.avgRating row = ClientMain.average scores /\
       ClientMain.count row = length scores /\
       ClientMain.genre row = ClientMain.orString (ClientMain.md_genre d) "" /\
       ClientMain.title row =
         ClientMain.orString (ClientMain.md_title d) "Unknown").
Proof.
  revert rows. induction es as [|[id scores] es IH]; intros rows Hdone.
  - injection Hdone as <-. split; [done|]. by intros row ?%elem_of_nil.
  - cbn [ClientMain.enrich] in Hdone.
    destruct (movieData id) as [d|] eqn:Hd; [|done].
    destruct (ClientMain.enrich movieData es) as [rows'| |]; [|done..].
    injection Hdone as <-. destruct (IH rows' eq_refl) as [Hids Hrows].
    split; [by rewrite !fmap_cons, Hids|].
    intros row [->|Hrow]%elem_of_cons.
    + exists scores, d. simpl. repeat split; [apply list_elem_of_here | done].
    + destruct (Hrows row Hrow) as (sc & d' & Hin & Hrest).
      exists sc, d'. split; [by apply list_elem_of_further | done].
Qed.

Lemma enrich_outcome (movieData : string -> option ClientMain.MovieData)
    (es : list (string * list Q)) :
  ClientMain.enrich movieData es <> ClientMain.TypeError /\
  (ClientMain.enrich movieData es = ClientMain.FetchError <->
   exists k, k ∈ es.*1 /\ movieData k = None).
Proof.
  induction es as [|[id scores] es [IHt IHf]].
  - split; [done|]. split; [done|]. by intros (k & ?%elem_of_nil & _).
  - cbn [ClientMain.enrich]. rewrite fmap_cons. simpl.
    destruct (movieData id) as [d|] eqn:Hd.
    + destruct (ClientMain.enrich movieData es) as [rows| |].
      * split; [done|]. split; [done|].
        intros (k & [->|Hk]%elem_of_cons & Hnone); [congruence|].
        by pose proof (proj2 IHf (ex_intro _ k (conj Hk Hnone))).
      * done.
      * split; [done|]. split; [|done]. intros _.
        destruct (proj1 IHf eq_refl) as (k & Hk & Hnone).
        exists k. split; [by apply list_elem_of_further | done].
    + split; [done|]. split; [|done]. intros _.
      exists id. split; [apply list_elem_of_here | done].
Qed.

Lemma insert_Permutation (x : ClientMain.Row) (l : list ClientMain.Row) :
  ClientMain.insert x l ≡ₚ x :: l.
Proof.
  induction l as [|y l IH]; [done|]. cbn [ClientMain.insert].
  destruct (Qle_bool _ _); [done|]. by rewrite IH, Permutation_swap.
Qed.

Lemma sortByAverage_Permutation (l : list ClientMain.Row) :
  ClientMain.sortByAverage l ≡ₚ l.
Proof.
  induction l as [|x l IH]; [done|].
  unfold ClientMain.sortByAverage. cbn [foldr]. rewrite insert_Permutation.
  by f_equiv.
Qed.

Lemma insert_sorted (x : ClientMain.Row) (l : list ClientMain.Row) :
  StronglySorted notBelow l -> StronglySorted notBelow (ClientMain.insert x l).
Proof.
  induction l as [|y l IH]; intros Hs.
  - repeat constructor.
  - apply StronglySorted_cons in Hs as [Hy Hs]. cbn [ClientMain.insert].
    destruct (Qle_bool (ClientMain.avgRating y) (ClientMain.avgRating x)) eqn:Hle.
    + apply Qle_bool_iff in Hle.
      apply StronglySorted_cons. split.
      * constructor; [exact Hle|].
        eapply Forall_impl; [exact Hy|]. intros z Hz. unfold notBelow in *.
        by apply Qle_trans with (ClientMain.avgRating y).
      * by apply StronglySorted_cons.
    + assert (notBelow y x) as Hyx.
      { unfold notBelow. apply Qlt_le_weak, Qnot_le_lt.
        intros Hle'. apply Qle_bool_iff in Hle'. congruence. }
      apply StronglySorted_cons. split; [|by apply IH].
      apply Forall_forall. intros z Hz.
      rewrite insert_Permutation in Hz. apply elem_of_cons in Hz as [->|Hz]; [done|].
      by eapply Forall_forall in Hy.
Qed.

Lemma sortByAverage_sorted (l : list ClientMain.Row) :
  StronglySorted notBelow (ClientMain.sortByAverage l).
Proof.
  induction l as [|x l IH]; [constructor|]. by apply insert_sorted.
Qed.

(** The stages of [top10] when it returns. *)
Lemma top10_Done (allRatings : list ClientMain.RatingItem) (selected : string)
    (movieData : string -> option ClientMain.MovieData)
    (rows : list ClientMain.Row) :
  ClientMain.top10 allRatings selected movieData = ClientMain.Done rows ->
  exists (m : ClientMain.RatingMap) (enriched : list ClientMain.Row),
    Grouped allRatings m /\
    ClientMain.enrich movieData (ClientMain.entries m) = ClientMain.Done enriched /\
    rows = take 10 (ClientMain.sortByAverage
                      (filter (fun r => ClientMain.keeps
                                          (ClientMain.toLowerCase selected) r)
                         enriched)).
Proof.
  unfold ClientMain.top10.
  destruct (ClientMain.groupFrom [] allRatings) as [m| |] eqn:Hm; [|done..].
  destruct (ClientMain.enrich movieData (ClientMain.entries m))
    as [enriched| |] eqn:He; [|done..].
  intros [= <-]. exists m, enriched. split; [|done].
  by apply (groupFrom_Grouped [] allRatings [] m Grouped_nil).
Qed.

(** X17.  Each bar of the chart stands for one movie with at least three
    fetched ratings: its count is the number of fetched ratings whose link
    ends in its id, its average is the mean of their scores, its genre and
    title are those the movie endpoint served (or the defaults), and its
    lower-cased genre contains the lower-cased selection, if there is one. *)
Theorem top10_rows_are_means (allRatings : list ClientMain.RatingItem)
    (selected : string) (movieData : string -> option ClientMain.MovieData)
    (rows : list ClientMain.Row) (row : ClientMain.Row) :
  ClientMain.top10 allRatings selected movieData = ClientMain.Done rows ->
  row ∈ rows ->
  (3 <= ClientMain.count row)%nat /\
  ClientMain.count row = length (scoresFor (ClientMain.movieId row) allRatings) /\
  ClientMain.avgRating row == mean (scoresFor (ClientMain.movieId row) allRatings) /\
  (ClientMain.toLowerCase selected = "" \/
   ClientMain.includes (ClientMain.toLowerCase (ClientMain.genre row))
     (ClientMain.toLowerCase selected) = true) /\
  exists d, movieData (ClientMain.movieId row) = Some d /\
    ClientMain.genre row = ClientMain.orString (ClientMain.md_genre d) "" /\
    ClientMain.title row = ClientMain.orString (ClientMain.md_title d) "Unknown".
Proof.
  intros (m & enriched & (_ & _ & Helem) & Henrich & ->)%top10_Done Hrow.
  apply subseteq_take in Hrow. rewrite sortByAverage_Permutation in Hrow.
  apply list_elem_of_filter in Hrow as [Hkeep Hrow].
  destruct (enrich_Done _ _ _ Henrich) as [_ Hrows].
  destruct (Hrows row Hrow) as (scores & d & Hin & Hd & Havg & Hc & Hg & Ht).
  rewrite entries_Permutation in Hin.
  destruct (Helem _ _ Hin) as [-> _].
  apply Is_true_true in Hkeep. unfold ClientMain.keeps in Hkeep.
  apply andb_true_iff in Hkeep as [Hgenre Hcount].
  apply Nat.leb_le in Hcount.
  split; [done|]. split; [done|]. split; [|split].
  - rewrite Havg. apply average_mean.
  - apply orb_true_iff in Hgenre as [Hnone|Hinc]; [left | by right].
    by destruct (ClientMain.toLowerCase selected).
  - by exists d.
Qed.

(** X18.  The chart has ten bars at most, no movie twice, and no bar is
    rated higher than a bar before it. *)
Theorem top10_is_ranked (allRatings : list ClientMain.RatingItem)
    (selected : string) (movieData : string -> option ClientMain.MovieData)
    (rows : list ClientMain.Row) :
  ClientMain.top10 allRatings selected movieData = ClientMain.Done rows ->
  (length rows <= 10)%nat /\
  NoDup (ClientMain.movieId <$> rows) /\
  StronglySorted notBelow rows.
Proof.
  intros (m & enriched & (Hnd & _ & _) & Henrich & ->)%top10_Done.
  split; [rewrite length_take; lia|]. split.
  - destruct (enrich_Done _ _ _ Henrich) as [Hids _].
    eapply submseteq_NoDup.
    + apply fmap_submseteq. etrans; [apply submseteq_take|].
      etrans; [apply Permutation_submseteq, sortByAverage_Permutation|].
      apply sublist_submseteq, sublist_filter.
    + rewrite Hids, entries_Permutation. exact Hnd.
  - set (sorted := ClientMain.sortByAverage _).
    apply (StronglySorted_app_1_l _ _ (drop 10 sorted)).
    rewrite take_drop. apply sortByAverage_sorted.
Qed.

(** X19.  The script throws a [TypeError] exactly when a fetched rating
    links to an id that names a property every object inherits, and fails
    with the movie requests exactly when that does not happen and the
    request for the movie of some fetched rating fails, be it a movie with
    too few ratings to be shown. *)
Theorem top10_failures (allRatings : list ClientMain.RatingItem)
    (selected : string) (movieData : string -> option ClientMain.MovieData) :
  (ClientMain.top10 allRatings selected movieData = ClientMain.TypeError <->
   exists r, r ∈ allRatings /\
     ClientMain.lastSegment (ClientMain.movie r) ∈ ClientMain.inherited) /\
  (ClientMain.top10 allRatings selected movieData = ClientMain.FetchError <->
   (forall r, r ∈ allRatings ->
      ClientMain.lastSegment (ClientMain.movie r) ∉ ClientMain.inherited) /\
   exists r, r ∈ allRatings /\
     movieData (ClientMain.lastSegment (ClientMain.movie r)) = None).
Proof.
  pose proof (groupFrom_TypeError [] allRatings) as Htype.
  pose proof (groupFrom_no_FetchError [] allRatings) as Hnofetch.
  unfold ClientMain.top10.
  destruct (ClientMain.groupFrom [] allRatings) as [m| |] eqn:Hm.
  - pose proof (groupFrom_Grouped [] allRatings [] m Grouped_nil Hm)
      as (Hnd & Hcover & Helem).
    assert (forall r, r ∈ allRatings ->
              ClientMain.lastSegment (ClientMain.movie r) ∉ ClientMain.inherited)
      as Hclean.
    { intros r Hr Hin. by pose proof (proj2 Htype (ex_intro _ r (conj Hr Hin))). }
    destruct (enrich_outcome movieData (ClientMain.entries m)) as [Hnt Hfe].
    assert ((exists k, k ∈ (ClientMain.entries m).*1 /\ movieData k = None) <->
            exists r, r ∈ allRatings /\
              movieData (ClientMain.lastSegment (ClientMain.movie r)) = None)
      as Hkeys.
    { split.
      - intros (k & Hk & Hnone). rewrite entries_Permutation in Hk.
        apply list_elem_of_fmap in Hk as ([k' l] & -> & Hkl). simpl in *.
        destruct (Helem _ _ Hkl) as [-> Hne].
        unfold scoresFor in Hne.
        destruct (filter _ allRatings) as [|r rs] eqn:Hf; [done|].
        assert (r ∈ filter (fun r => ClientMain.lastSegment (ClientMain.movie r) = k')
                      allRatings) as Hr by (rewrite Hf; apply list_elem_of_here).
        apply list_elem_of_filter in Hr as [Hk Hr].
        exists r. by rewrite Hk.
      - intros (r & Hr & Hnone). exists (ClientMain.lastSegment (ClientMain.movie r)).
        split; [|done]. rewrite entries_Permutation. by apply Hcover. }
    destruct (ClientMain.enrich movieData (ClientMain.entries m)) as [rows| |].
    + split; (split; [done|]).
      * intros (r & Hr & Hin). by destruct (Hclean r Hr).
      * intros [_ Hex]. apply Hkeys in Hex. by apply Hfe in Hex.
    + done.
    + split; [split; [done|] | split; [|done]].
      * intros (r & Hr & Hin). by destruct (Hclean r Hr).
      * intros _. split; [exact Hclean|]. apply Hkeys. by apply Hfe.
  - split; [split; [by intros _; apply Htype | done]|].
    split; [done|]. intros [Hclean _].
    destruct (proj1 Htype eq_refl) as (r & Hr & Hin). by destruct (Hclean r Hr).
  - done.
Qed.

Lemma sample_bars :
  ClientMain.top10 ClientSample.allRatings "" ClientSample.movieData =
  ClientMain.Done [ClientSample.barB; ClientSample.bar7].
Proof. by vm_compute. Qed.

Lemma top10_rows_are_means_witness :
  (3 <= ClientMain.count ClientSample.barB)%nat /\
  ClientMain.count ClientSample.barB =
    length (scoresFor "b" ClientSample.allRatings) /\
  ClientMain.avgRating ClientSample.barB ==
    mean (scoresFor "b" ClientSample.allRatings).
Proof.
  destruct (top10_rows_are_means ClientSample.allRatings ""
              ClientSample.movieData [ClientSample.barB; ClientSample.bar7]
              ClientSample.barB sample_bars (list_elem_of_here _ _))
    as (Hthree & Hcount & Hmean & _).
  split; [exact Hthree|]. split; [exact Hcount | exact Hmean].
Defined.

Lemma top10_is_ranked_witness :
  (length [ClientSample.barB; ClientSample.bar7] <= 10)%nat /\
  NoDup (ClientMain.movieId <$> [ClientSample.barB; ClientSample.bar7]) /\
  StronglySorted notBelow [ClientSample.barB; ClientSample.bar7].
Proof.
  exact (top10_is_ranked ClientSample.allRatings "" ClientSample.movieData
           [ClientSample.barB; ClientSample.bar7] sample_bars).
Defined.

(** ** The response and the order of the ratings *)

Lemma Qsum_Permutation (l1 l2 : list Q) : l1 ≡ₚ l2 -> Qsum l1 == Qsum l2.
Proof.
  induction 1 as [|x l1 l2 _ IH|x y l|l1 l2 l3 _ IH1 _ IH2]; simpl.
  - reflexivity.
  - fold (Qsum l1) (Qsum l2). by rewrite IH.
  - ring.
  - by rewrite IH1.
Qed.

Lemma mean_Permutation (l1 l2 : list Q) : l1 ≡ₚ l2 -> mean l1 == mean l2.
Proof.
  intros Hp. unfold mean.
  by rewrite (Qsum_Permutation _ _ Hp), (Permutation_length Hp).
Qed.

Lemma scoresOf_Permutation (ms : gmap ObjectId Movie.t) (rs1 rs2 : list Rating.t)
    (k : ObjectId) :
  rs1 ≡ₚ rs2 ->
  scoresOf {| movies := ms; ratings := rs1 |} k ≡ₚ
  scoresOf {| movies := ms; ratings := rs2 |} k.
Proof. intros Hp. unfold scoresOf. simpl. by rewrite Hp. Qed.

Lemma tieBreak_antisym (x y : Q) (A B : Row) :
  tieBreak x y A B -> tieBreak y x B A ->
  x == y /\ voteCount A = voteCount B /\ title A = title B.
Proof.
  intros [Hlt|[[Heq Hv]|(Heq & Hv & Ht)]] [Hlt'|[[Heq' Hv']|(Heq' & Hv' & Ht')]].
  - by destruct (Qlt_irrefl x); apply Qlt_trans with y.
  - rewrite Heq' in Hlt. by destruct (Qlt_irrefl x).
  - rewrite Heq' in Hlt. by destruct (Qlt_irrefl x).
  - rewrite Heq in Hlt'. by destruct (Qlt_irrefl y).
  - lia.
  - lia.
  - rewrite Heq in Hlt'. by destruct (Qlt_irrefl y).
  - lia.
  - repeat split; [done..|]. by apply String.leb_antisym.
Qed.

Section RatingOrder.
Context `{E : RegexEngine}.

(** The entry of a group that passes the threshold is the entry of its
    movie. *)
Lemma qualified_entry (db : Database) (genreRegex : option RegExp)
    (minVotes : Z) (g : Group) :
  g ∈ match_votes minVotes
        (group (match_genre genreRegex
                  (lookup_unwind (movies db) (ratings db)))) ->
  exists m, entry (project g) = entryOf db (_id g, m) /\
            (_id g, m) ∈ eligible db genreRegex minVotes /\
            g_avgRating g == mean (scoresOf db (_id g)).
Proof.
  intros Hg.
  destruct (qualified_elem _ _ _ _ Hg)
    as (m & Hm & Hp & Hid & Ht & Hgen & Hc & Hmean & Hv).
  exists m. split; [|split; [|done]].
  - unfold entry, project, entryOf. simpl.
    rewrite Hid, Ht, Hgen, Hc. f_equal. by apply round3_comp.
  - apply eligible_elem; [done..|]. by rewrite <- Hc.
Qed.

(** All rows before [$limit], for a threshold of at least one vote: they
    are the entries of the eligible movies, in the three-level order. *)
Lemma all_rows (db : Database) (genreRegex : option RegExp) (minVotes : Z) :
  1 <= minVotes ->
  entry <$> (project <$>
    sort (match_votes minVotes
            (group (match_genre genreRegex
                      (lookup_unwind (movies db) (ratings db))))))
  ≡ₚ entryOf db <$> eligible db genreRegex minVotes /\
  StronglySorted (ranksAs db)
    (entry <$> (project <$>
       sort (match_votes minVotes
               (group (match_genre genreRegex
                         (lookup_unwind (movies db) (ratings db))))))).
Proof.
  intros Hmin. set (qs := match_votes minVotes _).
  assert (forall g, g ∈ sort qs -> g ∈ qs) as Hin.
  { intros g. unfold sort. by rewrite merge_sort_Permutation. }
  split.
  - rewrite <- list_fmap_compose. unfold sort. rewrite merge_sort_Permutation.
    apply NoDup_Permutation.
    + apply (NoDup_fmap_1 movieId). rewrite <- list_fmap_compose.
      rewrite (list_fmap_ext _ _id qs).
      * eapply sublist_NoDup; [apply group_NoDup|].
        apply fmap_sublist, sublist_filter.
      * intros i g Hg%list_elem_of_lookup_2. simpl.
        by destruct (qualified_elem _ _ _ _ Hg) as (_ & _ & _ & ? & _).
    + apply (NoDup_fmap_1 movieId). rewrite <- list_fmap_compose.
      apply (sublist_NoDup _ ((map_to_list (movies db)).*1));
        [apply NoDup_fst_map_to_list|].
      apply fmap_sublist, sublist_filter.
    + intros row. rewrite !list_elem_of_fmap. split.
      * intros (g & -> & Hg). simpl.
        destruct (qualified_entry _ _ _ _ Hg) as (m & Hrow & Hel & _).
        by exists (_id g, m).
      * intros ([k m] & -> & Hkm).
        pose proof Hkm as Hkm'.
        apply list_elem_of_filter in Hkm' as [[Hp Hv] Hm]. simpl in Hp, Hv.
        apply elem_of_map_to_list in Hm. apply Is_true_true in Hp.
        destruct (group_cover db genreRegex k m Hm Hp) as (g & Hg & Hid).
        { intros Hnil. rewrite Hnil in Hv. simpl in Hv. lia. }
        assert (g ∈ qs) as Hq.
        { apply list_elem_of_filter. split; [|done].
          destruct (group_spec _ _ Hg) as (_ & Hc & _).
          rewrite Hc, Hid, <- (length_fmap j_rating),
            (joined_scores db genreRegex k m Hm Hp). done. }
        exists g. split; [|done]. simpl.
        destruct (qualified_entry _ _ _ _ Hq) as (m' & Hrow & Hel & _).
        rewrite Hrow, Hid. f_equal. f_equal.
        apply list_elem_of_filter in Hel as [_ Hm'].
        apply elem_of_map_to_list in Hm'. rewrite Hid in Hm'. congruence.
  - rewrite <- list_fmap_compose.
    apply (StronglySorted_fmap_strong sortOrder);
      [|apply StronglySorted_merge_sort; apply _].
    intros x y Hx%Hin Hy%Hin Hxy. apply sortLeb_spec in Hxy.
    destruct (qualified_elem _ _ _ _ Hx)
      as (_ & _ & _ & Hxid & _ & _ & _ & Hxm & _).
    destruct (qualified_elem _ _ _ _ Hy)
      as (_ & _ & _ & Hyid & _ & _ & _ & Hym & _).
    unfold ranksAs, tieBreak. simpl.
    rewrite Hxid, Hyid, <- Hxm, <- Hym. exact Hxy.
Qed.

(** X20.  The response does not depend on the order in which the ratings
    are stored, as long as no two eligible movies agree in mean, number of
    votes and title. *)
Theorem response_ignores_rating_order (now : string)
    (ms : gmap ObjectId Movie.t) (rs1 rs2 : list Rating.t) (query : Query)
    (genreRegex : option RegExp) :
  rs1 ≡ₚ rs2 ->
  getTopRated_genreRegex query = Resolved genreRegex ->
  noFullTies {| movies := ms; ratings := rs1 |} genreRegex
    (getTopRated_minVotes query) ->
  getTopRated now {| movies := ms; ratings := rs1 |} query =
  getTopRated now {| movies := ms; ratings := rs2 |} query.
Proof.
  intros Hp Hre Hties.
  set (db1 := {| movies := ms; ratings := rs1 |}) in *.
  set (db2 := {| movies := ms; ratings := rs2 |}).
  set (mv := getTopRated_minVotes query) in *.
  assert (1 <= mv) as Hmv by apply minVotes_bounds.
  assert (forall k, mean (scoresOf db1 k) == mean (scoresOf db2 k)) as Hmean.
  { intros k. apply mean_Permutation, scoresOf_Permutation, Hp. }
  assert (forall k, length (scoresOf db1 k) = length (scoresOf db2 k)) as Hlen.
  { intros k. apply Permutation_length, scoresOf_Permutation, Hp. }
  assert (forall d, entryOf db1 d = entryOf db2 d) as Hentry.
  { intros d. unfold entryOf. rewrite Hlen. f_equal. apply round3_comp, Hmean. }
  assert (eligible db1 genreRegex mv = eligible db2 genreRegex mv) as Hel.
  { unfold eligible. apply list_filter_iff. intros d. by rewrite Hlen. }
  destruct (all_rows db1 genreRegex mv Hmv) as [Hperm1 Hsorted1].
  destruct (all_rows db2 genreRegex mv Hmv) as [Hperm2 Hsorted2].
  assert (entry <$> (project <$>
            sort (match_votes mv (group (match_genre genreRegex
                    (lookup_unwind (movies db1) (ratings db1))))))
          = entry <$> (project <$>
            sort (match_votes mv (group (match_genre genreRegex
                    (lookup_unwind (movies db2) (ratings db2))))))) as Hrows.
  { apply (StronglySorted_unique_strong (ranksAs db1)); [|done| |].
    - intros A B HA HB HAB HBA.
      rewrite Hperm1 in HA. rewrite Hperm2, <- Hel in HB.
      apply list_elem_of_fmap in HA as (dA & -> & HdA).
      apply list_elem_of_fmap in HB as (dB & -> & HdB).
      rewrite <- Hentry. f_equal.
      unfold ranksAs in HAB, HBA. rewrite <- Hentry in HAB, HBA.
      destruct (tieBreak_antisym _ _ _ _ HAB HBA) as (Hm & Hv & Ht).
      simpl in Hm, Hv, Ht. apply Hties; [done..| |done]. lia.
    - rewrite <- (list_fmap_id (entry <$> _)).
      apply (StronglySorted_fmap_strong (ranksAs db2) _ id); [|exact Hsorted2].
      intros A B _ _. unfold ranksAs, tieBreak. simpl. by rewrite !Hmean.
    - rewrite Hperm1, Hperm2, Hel.
      apply reflexive_eq, list_fmap_ext. intros i d _. apply Hentry. }
  unfold getTopRated, getTopRatedAggregates. rewrite Hre.
  cbn [mbind Promise_bind].
  rewrite !ranked_resolves by (pose proof (minVotes_bounds query); lia).
  cbn [mbind Promise_bind].
  rewrite !fmap_take. fold mv. by rewrite Hrows.
Qed.

End RatingOrder.

Lemma sample_has_no_full_ties :
  @noFullTies patternEngine
    {| movies := movies Sample.threeMovies; ratings := ratings Sample.threeMovies |}
    None (getTopRated_minVotes Sample.noParams).
Proof.
  intros d1 d2 H1 H2 Hm _ _.
  apply list_elem_of_In in H1, H2. vm_compute in H1, H2.
  destruct H1 as [<-|[<-|[]]]; destruct H2 as [<-|[<-|[]]];
    try reflexivity; vm_compute in Hm; discriminate.
Qed.

Lemma response_ignores_rating_order_witness :
  @getTopRated patternEngine Sample.now
    {| movies := movies Sample.threeMovies;
       ratings := ratings Sample.threeMovies |} Sample.noParams =
  @getTopRated patternEngine Sample.now
    {| movies := movies Sample.threeMovies;
       ratings := reverse (ratings Sample.threeMovies) |} Sample.noParams.
Proof.
  apply (@response_ignores_rating_order patternEngine Sample.now
           (movies Sample.threeMovies) (ratings Sample.threeMovies)
           (reverse (ratings Sample.threeMovies)) Sample.noParams None).
  - symmetry. apply reverse_Permutation.
  - reflexivity.
  - exact sample_has_no_full_ties.
Defined.
